(** * FinAi statement analyzer: parsers, parser registry and insights engine

    A shallow embedding of the statement-analysis core of the repository:

    - [lib/parsers/common.ts]: [parseAmountToken], [toIsoDate], [inferCategory];
    - [lib/parsers/generic.ts]: [looksLikeHeader], [parseRows], [rowsToTxns];
    - [lib/parsers/icici.ts]: [parseIciciRows];
    - [lib/parsers/index.ts]: [parserScore], [runParserPipeline];
    - [app/api/analyze/route.ts]: [toTxns], [monthKey], [normalizeMerchant],
      [buildInsights].

    Modelling conventions.

    - A JavaScript string is a [string] of 8-bit characters; the character
      classes [\d], [\w], [\s] and the case mappings are the ASCII ones.
    - A JavaScript regular expression is a value of type [regex], run by a
      backtracking matcher with the priorities of the JavaScript one
      (greedy quantifiers, ordered alternatives, leftmost match).
    - A JavaScript number is an exact rational ([Q]); sums, products and
      quotients are exact, and numbers are compared with [==].  The square
      root of the variance is a real number ([R]).
    - [undefined] and [null] are [None]; a [throw] is the [Thrown] outcome. *)

From Stdlib Require Import List Bool Arith Lia ZArith QArith Qabs Ascii String.
From Stdlib Require Import Lqa.
From Stdlib Require Reals Qreals Lra.
From Stdlib Require Import Sorting.Sorted Sorting.Permutation.
Import ListNotations.

Set Implicit Arguments.
Local Open Scope string_scope.
Local Open Scope list_scope.
Local Open Scope nat_scope.

(* ===================================================================== *)
(** * Characters and strings *)
(* ===================================================================== *)

Module Text.

Definition code (c : ascii) : nat := nat_of_ascii c.

Definition between (lo hi : nat) (c : ascii) : bool :=
  (lo <=? code c) && (code c <=? hi).

(** [\d] *)
Definition isDigit (c : ascii) : bool := between 48 57 c.

Definition isUpper (c : ascii) : bool := between 65 90 c.
Definition isLower (c : ascii) : bool := between 97 122 c.

(** [[A-Za-z]] *)
Definition isAlpha (c : ascii) : bool := isUpper c || isLower c.

(** [\w] *)
Definition isWord (c : ascii) : bool :=
  isAlpha c || isDigit c || (code c =? 95).

(** [\s]: tab, line feed, vertical tab, form feed, carriage return, space. *)
Definition isSpace (c : ascii) : bool :=
  between 9 13 c || (code c =? 32).

Definition lowerChar (c : ascii) : ascii :=
  if isUpper c then ascii_of_nat (code c + 32) else c.

Definition upperChar (c : ascii) : ascii :=
  if isLower c then ascii_of_nat (code c - 32) else c.

Fixpoint mapStr (f : ascii -> ascii) (s : string) : string :=
  match s with
  | EmptyString => EmptyString
  | String c s' => String (f c) (mapStr f s')
  end.

Definition toLowerCase : string -> string := mapStr lowerChar.
Definition toUpperCase : string -> string := mapStr upperChar.

Fixpoint take (n : nat) (s : string) : string :=
  match n, s with
  | S n', String c s' => String c (take n' s')
  | _, _ => EmptyString
  end.

Fixpoint drop (n : nat) (s : string) : string :=
  match n, s with
  | S n', String _ s' => drop n' s'
  | _, _ => s
  end.

Fixpoint revOnto (s acc : string) : string :=
  match s with
  | EmptyString => acc
  | String c s' => revOnto s' (String c acc)
  end.

Definition rev (s : string) : string := revOnto s EmptyString.

Fixpoint trimStart (s : string) : string :=
  match s with
  | String c s' => if isSpace c then trimStart s' else s
  | EmptyString => EmptyString
  end.

Definition trimEnd (s : string) : string := rev (trimStart (rev s)).

(** [s.trim()] *)
Definition trim (s : string) : string := trimEnd (trimStart s).

Fixpoint startsWith (p s : string) : bool :=
  match p, s with
  | EmptyString, _ => true
  | String a p', String b s' => Ascii.eqb a b && startsWith p' s'
  | String _ _, EmptyString => false
  end.

(** [s.includes(p)] *)
Fixpoint includes (p s : string) : bool :=
  startsWith p s ||
  match s with
  | EmptyString => false
  | String _ s' => includes p s'
  end.

Fixpoint allChars (p : ascii -> bool) (s : string) : bool :=
  match s with
  | EmptyString => true
  | String c s' => p c && allChars p s'
  end.

Fixpoint filterChars (p : ascii -> bool) (s : string) : string :=
  match s with
  | EmptyString => EmptyString
  | String c s' => if p c then String c (filterChars p s') else filterChars p s'
  end.

Definition headChar (s : string) : option ascii :=
  match s with
  | EmptyString => None
  | String c _ => Some c
  end.

(** [s.padStart(2, "0")] *)
Definition padStart2 (s : string) : string :=
  match String.length s with
  | 0 => String.append "00" s
  | 1 => String.append "0" s
  | _ => s
  end.

Definition digitVal (c : ascii) : nat := code c - 48.

(** [Number(s)] for a string of decimal digits. *)
Definition natOfDigits (s : string) : nat :=
  (fix go (acc : nat) (s : string) : nat :=
     match s with
     | EmptyString => acc
     | String c s' => go (10 * acc + digitVal c) s'
     end) 0 s.

Definition digitChar (d : nat) : ascii := ascii_of_nat (48 + d).

Fixpoint digitsOfNat (fuel n : nat) (acc : string) : string :=
  match fuel with
  | 0 => acc
  | S fuel' =>
      let acc' := String (digitChar (n mod 10)) acc in
      if n <? 10 then acc' else digitsOfNat fuel' (n / 10) acc'
  end.

(** [String(n)] for a natural number. *)
Definition stringOfNat (n : nat) : string := digitsOfNat (S n) n EmptyString.

End Text.

(* ===================================================================== *)
(** * Regular expressions *)
(* ===================================================================== *)

Module Regex.
Import Text.

Inductive regex : Type :=
| Eps                                   (* the empty pattern *)
| Chr (p : ascii -> bool)               (* one character of a class *)
| Seq (r1 r2 : regex)                   (* r1 r2 *)
| Alt (r1 r2 : regex)                   (* r1|r2, r1 tried first *)
| Star (r : regex)                      (* r*, greedy *)
| Group (n : nat) (r : regex)           (* capture group number n *)
| Bol                                   (* ^ *)
| Eol                                   (* $ *)
| WordB.                                (* \b *)

(** The matcher walks the input left to right; it knows the offset, the
    character before the current position (for [\b]), the text that remains
    and the captures made so far (latest first). *)
Record mstate : Type := MState {
  pos : nat;
  prev : option ascii;
  rest : string;
  caps : list (nat * string)
}.

Definition isWordOpt (o : option ascii) : bool :=
  match o with
  | Some c => isWord c
  | None => false
  end.

(** The text consumed between two states of one run. *)
Definition consumed (st st1 : mstate) : string :=
  take (String.length (rest st) - String.length (rest st1)) (rest st).

Definition setCap (n : nat) (w : string) (st : mstate) : mstate :=
  MState (pos st) (prev st) (rest st) ((n, w) :: caps st).

Definition orElse {A} (a b : option A) : option A :=
  match a with
  | Some _ => a
  | None => b
  end.

(** The iterations of [r*] from state [st]: one more iteration of [body]
    that consumes something, then the rest of the loop; failing that, the
    continuation.  [fuel] bounds the number of iterations by the length of
    the remaining text. *)
Fixpoint starLoop {A} (body : mstate -> (mstate -> option A) -> option A)
  (k : mstate -> option A) (fuel : nat) (st : mstate) : option A :=
  match fuel with
  | 0 => k st
  | S fuel' =>
      orElse
        (body st (fun st1 =>
           if String.length (rest st1) <? String.length (rest st)
           then starLoop body k fuel' st1 else None))
        (k st)
  end.

(** Backtracking matcher in continuation-passing style: [run r st k] tries
    the ways [r] can match at [st] in priority order and returns the first
    one accepted by [k].  An iteration of [Star] that consumes nothing is
    rejected, as in ECMAScript. *)
Fixpoint run {A} (r : regex) (st : mstate) (k : mstate -> option A) : option A :=
  match r with
  | Eps => k st
  | Chr p =>
      match rest st with
      | String c s' =>
          if p c then k (MState (S (pos st)) (Some c) s' (caps st)) else None
      | EmptyString => None
      end
  | Seq r1 r2 => run r1 st (fun st1 => run r2 st1 k)
  | Alt r1 r2 => orElse (run r1 st k) (run r2 st k)
  | Star r1 => starLoop (fun st0 k0 => run r1 st0 k0) k (String.length (rest st)) st
  | Group n r1 => run r1 st (fun st1 => k (setCap n (consumed st st1) st1))
  | Bol => if pos st =? 0 then k st else None
  | Eol => match rest st with EmptyString => k st | String _ _ => None end
  | WordB =>
      if xorb (isWordOpt (prev st)) (isWordOpt (headChar (rest st)))
      then k st else None
  end.

(** ** Derived forms *)

Definition lit (c : ascii) : regex := Chr (Ascii.eqb c).

(** A letter of a pattern with the [i] flag. *)
Definition liti (c : ascii) : regex :=
  Chr (fun x => Ascii.eqb (lowerChar x) (lowerChar c)).

Fixpoint str (s : string) : regex :=
  match s with
  | EmptyString => Eps
  | String c s' => Seq (lit c) (str s')
  end.

Fixpoint stri (s : string) : regex :=
  match s with
  | EmptyString => Eps
  | String c s' => Seq (liti c) (stri s')
  end.

Definition Opt (r : regex) : regex := Alt r Eps.            (* r? *)
Definition Plus (r : regex) : regex := Seq r (Star r).      (* r+ *)

Fixpoint upTo (n : nat) (r : regex) : regex :=              (* r{0,n} *)
  match n with
  | 0 => Eps
  | S n' => Opt (Seq r (upTo n' r))
  end.

Fixpoint times (n : nat) (r : regex) : regex :=             (* r{n} *)
  match n with
  | 0 => Eps
  | S n' => Seq r (times n' r)
  end.

Definition Rep (lo hi : nat) (r : regex) : regex :=         (* r{lo,hi} *)
  Seq (times lo r) (upTo (hi - lo) r).

Fixpoint alts (rs : list regex) : regex :=                  (* r1|...|rn *)
  match rs with
  | [] => Chr (fun _ => false)
  | [r] => r
  | r :: rs' => Alt r (alts rs')
  end.

Definition oneOf (s : string) : regex :=                    (* [...] *)
  Chr (fun c => includes (String c EmptyString) s).

Definition digit : regex := Chr isDigit.                    (* \d *)
Definition space : regex := Chr isSpace.                    (* \s *)
Definition alpha : regex := Chr isAlpha.                    (* [A-Za-z] *)

(** [.]: any character but a line terminator. *)
Definition dot : regex :=
  Chr (fun c => negb ((code c =? 10) || (code c =? 13))).

(** ** Searching *)

Record rmatch : Type := RMatch {
  index : nat;                 (* offset of the match in the input *)
  matched : string;            (* m[0] *)
  groups : list (nat * string);
  after : mstate               (* matcher state at the end of the match *)
}.

Definition group (n : nat) (m : rmatch) : option string :=
  match find (fun p => fst p =? n) (groups m) with
  | Some p => Some (snd p)
  | None => None
  end.

Definition matchAt (r : regex) (st : mstate) : option rmatch :=
  run r st (fun st1 => Some (RMatch (pos st) (consumed st st1) (caps st1) st1)).

(** Leftmost match at or after the position of [st]. *)
Fixpoint searchFrom (r : regex) (p : nat) (pv : option ascii) (s : string)
  : option rmatch :=
  match matchAt r (MState p pv s []) with
  | Some m => Some m
  | None =>
      match s with
      | EmptyString => None
      | String c s' => searchFrom r (S p) (Some c) s'
      end
  end.

(** [s.match(r)] without the [g] flag. *)
Definition exec (r : regex) (s : string) : option rmatch :=
  searchFrom r 0 None s.

(** [r.test(s)] *)
Definition test (r : regex) (s : string) : bool :=
  match exec r s with Some _ => true | None => false end.

(** [s.matchAll(r)]: successive non-overlapping matches, left to right; after
    an empty match the search resumes one character further. *)
Fixpoint matchAllFrom (fuel : nat) (r : regex) (p : nat) (pv : option ascii)
  (s : string) : list rmatch :=
  match fuel with
  | 0 => []
  | S fuel' =>
      match searchFrom r p pv s with
      | None => []
      | Some m =>
          let e := after m in
          if pos e =? index m then
            match rest e with
            | EmptyString => [m]
            | String c s' => m :: matchAllFrom fuel' r (S (pos e)) (Some c) s'
            end
          else m :: matchAllFrom fuel' r (pos e) (prev e) (rest e)
      end
  end.

Definition matchAll (r : regex) (s : string) : list rmatch :=
  matchAllFrom (S (String.length s)) r 0 None s.

(** [s.replace(r, by)] with the [g] flag: the text between the matches is
    kept, each match is replaced. *)
Fixpoint rebuild (by_ : string) (ms : list rmatch) (cur : nat) (s : string)
  : string :=
  match ms with
  | [] => s
  | m :: ms' =>
      String.append (take (index m - cur) s)
        (String.append by_
           (rebuild by_ ms' (index m + String.length (matched m))
              (drop (index m - cur + String.length (matched m)) s)))
  end.

Definition replaceAll (r : regex) (by_ : string) (s : string) : string :=
  rebuild by_ (matchAll r s) 0 s.

(** [s.split(r)] for a pattern that never matches the empty string. *)
Fixpoint pieces (ms : list rmatch) (cur : nat) (s : string) : list string :=
  match ms with
  | [] => [s]
  | m :: ms' =>
      take (index m - cur) s ::
      pieces ms' (index m + String.length (matched m))
        (drop (index m - cur + String.length (matched m)) s)
  end.

Definition split (r : regex) (s : string) : list string :=
  pieces (matchAll r s) 0 s.

End Regex.

(* ===================================================================== *)
(** * Numbers *)
(* ===================================================================== *)

Module Num.
Import Text.

Definition Qltb (a b : Q) : bool := negb (Qle_bool b a).   (* a < b *)
Definition Qleb (a b : Q) : bool := Qle_bool a b.          (* a <= b *)

Definition pow10 (n : nat) : positive := Nat.iter n (Pos.mul 10) 1%positive.

Definition zOfDigits (s : string) : Z :=
  (fix go (acc : Z) (s : string) : Z :=
     match s with
     | EmptyString => acc
     | String c s' => go (10 * acc + Z.of_nat (digitVal c))%Z s'
     end) 0%Z s.

Fixpoint spanDigits (s : string) : string * string :=
  match s with
  | String c s' =>
      if isDigit c then let (a, b) := spanDigits s' in (String c a, b)
      else (EmptyString, s)
  | EmptyString => (EmptyString, EmptyString)
  end.

(** [Number(s)] for a decimal literal [-?digits(.digits)?]: its exact value. *)
Definition numberOfDecimal (s : string) : Q :=
  let (neg, body) :=
    match s with
    | String "-"%char s' => (true, s')
    | _ => (false, s)
    end in
  let (ip, tl) := spanDigits body in
  let fp := match tl with String "."%char f => fst (spanDigits f) | _ => EmptyString end in
  let v := Qmake (zOfDigits (String.append ip fp)) (pow10 (String.length fp)) in
  if neg then Qopp v else v.

(** [list.reduce((s, x) => s + x, 0)] *)
Definition sumQ (l : list Q) : Q := fold_left Qplus l 0%Q.

(** [xs.slice(-n)] *)
Definition lastN {A} (n : nat) (l : list A) : list A :=
  skipn (List.length l - n) l.

End Num.

(* ===================================================================== *)
(** * lib/parsers/common.ts *)
(* ===================================================================== *)

Module Common.
Import Text Regex Num.

Definition isDateSep (c : ascii) : bool :=
  includes (String c EmptyString) "./-".

Definition sep : regex := Chr isDateSep.                    (* [./-] *)

Definition isSpaceOrDash (c : ascii) : bool :=
  isSpace c || Ascii.eqb c "-".

(** [DATE_TOKEN] *)
Definition DATE_TOKEN : regex :=
  alts
    [ Seq (Rep 1 2 digit) (Seq sep (Seq (Rep 1 2 digit) (Seq sep (Rep 2 4 digit))));
      Seq (Rep 1 2 digit) (Seq (Plus space) (Seq (times 3 alpha)
        (Seq (Plus space) (Rep 2 4 digit))));
      Seq (Rep 1 2 digit) (Seq (lit "-") (Seq (times 3 alpha)
        (Seq (lit "-") (Rep 2 4 digit)))) ].

(** [/[^\d,.-]/g] *)
Definition notAmountChar : regex :=
  Chr (fun c => negb (isDigit c || includes (String c EmptyString) ",.-")).

Definition normalizeAmountToken (raw : string) : string :=
  trim (replaceAll (lit ",") "" (replaceAll notAmountChar "" raw)).

(** [/^-?\d+(?:\.\d{1,2})?$/] *)
Definition amountTokenRe : regex :=
  Seq Bol (Seq (Opt (lit "-")) (Seq (Plus digit)
    (Seq (Opt (Seq (lit ".") (Rep 1 2 digit))) Eol))).

(** [Number(normalized)] is finite for every literal in the exact model, so
    the [Number.isFinite] test always passes. *)
Definition parseAmountToken (token : string) : option Q :=
  let normalized := normalizeAmountToken token in
  if negb (test amountTokenRe normalized) then None
  else Some (numberOfDecimal normalized).

Definition grp (n : nat) (m : rmatch) : string :=
  match group n m with
  | Some s => s
  | None => EmptyString
  end.

(** [/^(\d{1,2})[./-](\d{1,2})[./-](\d{2,4})$/] *)
Definition slashRe : regex :=
  Seq Bol (Seq (Group 1 (Rep 1 2 digit)) (Seq sep (Seq (Group 2 (Rep 1 2 digit))
    (Seq sep (Seq (Group 3 (Rep 2 4 digit)) Eol))))).

(** [/^(\d{1,2})[\s-]([A-Za-z]{3})[\s-](\d{2,4})$/] *)
Definition monthNameRe : regex :=
  let spaceOrDash := Chr isSpaceOrDash in
  Seq Bol (Seq (Group 1 (Rep 1 2 digit)) (Seq spaceOrDash
    (Seq (Group 2 (times 3 alpha)) (Seq spaceOrDash
      (Seq (Group 3 (Rep 2 4 digit)) Eol))))).

Definition monthMap : list (string * string) :=
  [ ("jan", "01"); ("feb", "02"); ("mar", "03"); ("apr", "04");
    ("may", "05"); ("jun", "06"); ("jul", "07"); ("aug", "08");
    ("sep", "09"); ("oct", "10"); ("nov", "11"); ("dec", "12") ].

Definition lookup (k : string) (m : list (string * string)) : option string :=
  match find (fun p => String.eqb (fst p) k) m with
  | Some p => Some (snd p)
  | None => None
  end.

(** The two-digit-year pivot shared by both branches of [toIsoDate]. *)
Definition expandYear (yyyy : string) : string :=
  if String.length yyyy =? 2 then
    let y := natOfDigits yyyy in
    stringOfNat (if 70 <=? y then 1900 + y else 2000 + y)
  else yyyy.

Definition isoOf (yyyy mm dd : string) : string :=
  String.append yyyy (String.append "-" (String.append mm (String.append "-" dd))).

Definition toIsoDate (d : string) : string :=
  match exec slashRe d with
  | Some slash =>
      let dd := padStart2 (grp 1 slash) in
      let mm := padStart2 (grp 2 slash) in
      let yyyy := expandYear (grp 3 slash) in
      isoOf yyyy mm dd
  | None =>
      match exec monthNameRe d with
      | Some monthName =>
          let dd := padStart2 (grp 1 monthName) in
          let mmm := toLowerCase (grp 2 monthName) in
          match lookup mmm monthMap with
          | None => d
          | Some mm =>
              let yyyy := expandYear (grp 3 monthName) in
              isoOf yyyy mm dd
          end
      | None => d
      end
  end.

Definition inferCategory (text : string) : string :=
  let t := toLowerCase text in
  if includes "upi" t || includes "imps" t || includes "neft" t || includes "rtgs" t
  then "transfer"
  else if includes "atm" t then "cash"
  else if includes "salary" t then "income"
  else if includes "interest" t then "interest"
  else if includes "emi" t || includes "loan" t then "loan"
  else if includes "charge" t || includes "fee" t then "fees"
  else "uncategorized".

(** [text.split(/\r?\n/).map(l => l.replace(/\s+/g, " ").trim()).filter(Boolean)] *)
Definition collapseSpaces (s : string) : string :=
  trim (replaceAll (Plus space) " " s).

Definition nonEmpty (s : string) : bool :=
  negb (String.length s =? 0).

Definition normalizedLines (text : string) : list string :=
  filter nonEmpty
    (map collapseSpaces (split (Seq (Opt (lit "013")) (lit "010")) text)).

(** [/-?\d[\d,]*\.\d{1,2}/g] *)
Definition amountRe : regex :=
  Seq (Opt (lit "-")) (Seq digit
    (Seq (Star (Chr (fun c => isDigit c || Ascii.eqb c ",")))
      (Seq (lit ".") (Rep 1 2 digit)))).

End Common.

(** * lib/parsers/types.ts *)

Inductive DrCr : Type := CR | DR.

Module ParserTxn.

Record t : Type := make {
  date : string;
  description : string;
  amount : Q;
  drCr : DrCr;
  currency : string;
  category : string;
  confidence : Q;
  sourceParser : string
}.

End ParserTxn.

(* ===================================================================== *)
(** * lib/parsers/generic.ts *)
(* ===================================================================== *)

Module Generic.
Import Text Regex Num Common.

Record ParsedRow : Type := mkRow {
  rowDate : string;
  particulars : string;
  withdrawal : option Q;
  deposit : option Q;
  txnAmount : option Q;
  balance : option Q
}.

Definition looksLikeHeader (line : string) : bool :=
  let l := trim (replaceAll (Plus space) " " (toLowerCase line)) in
  let hasDateCols :=
    (includes "date" l && includes "value date" l) || includes "transaction date" l in
  let hasDescCol :=
    includes "particular" l || includes "remarks" l || includes "transaction remarks" l in
  hasDateCols && hasDescCol && includes "withdraw" l && includes "deposit" l
  && includes "balance" l.

(** [^(?:\d+\s+)?(DATE_TOKEN)(?:\s+(DATE_TOKEN))?\s+(REST)$], where
    [REST] is any run of characters other than line terminators. *)
Definition rowRe : regex :=
  Seq Bol (Seq (Opt (Seq (Plus digit) (Plus space)))
    (Seq (Group 1 DATE_TOKEN)
      (Seq (Opt (Seq (Plus space) (Group 2 DATE_TOKEN)))
        (Seq (Plus space) (Seq (Group 3 (Star dot)) Eol))))).

(** The offset [amountMatches[amountMatches.length - k].index], where [k] is
    3, 2 or 1 according to the number of matches, or the length of the text
    when there is no match. *)
Definition firstTailIndex (amountMatches : list rmatch) (restRaw : string) : nat :=
  let n := List.length amountMatches in
  let at_ (k : nat) :=
    match nth_error amountMatches (n - k) with
    | Some m => index m
    | None => String.length restRaw
    end in
  if 3 <=? n then at_ 3
  else if 2 <=? n then at_ 2
  else if 1 <=? n then at_ 1
  else String.length restRaw.

Definition keepSome {A} (l : list (option A)) : list A :=
  flat_map (fun o => match o with Some a => [a] | None => [] end) l.

(** The body of the [if (m)] branch of [parseRows]: the row started by a line
    whose date token is [dateRaw] and whose remainder is [restRaw]. *)
Definition startRow (dateRaw restRaw : string) : ParsedRow :=
  let date := toIsoDate dateRaw in
  let amountMatches := matchAll amountRe restRaw in
  let amountValues := keepSome (map (fun a => parseAmountToken (matched a)) amountMatches) in
  let lastThree := lastN 3 amountValues in
  let idx := firstTailIndex amountMatches restRaw in
  let particulars := trim (replaceAll (Plus space) " " (take idx restRaw)) in
  let n := List.length lastThree in
  mkRow date particulars
    (if n =? 3 then nth_error lastThree 0 else None)
    (if n =? 3 then nth_error lastThree 1 else None)
    (if n =? 2 then nth_error lastThree 0 else None)
    (if 0 <? n then nth_error lastThree (n - 1) else None).

Record rowState : Type := mkRowState {
  inTable : bool;
  current : option ParsedRow;
  rows : list ParsedRow
}.

Definition pushCurrent (st : rowState) : list ParsedRow :=
  match current st with
  | Some c => rows st ++ [c]
  | None => rows st
  end.

Definition appendLine (c : ParsedRow) (line : string) : ParsedRow :=
  mkRow (rowDate c)
    (trim (String.append (particulars c) (String.append " " line)))
    (withdrawal c) (deposit c) (txnAmount c) (balance c).

(** One iteration of the [for (const line of lines)] loop of [parseRows]. *)
Definition rowStep (st : rowState) (line : string) : rowState :=
  if negb (inTable st) && looksLikeHeader line then
    mkRowState true (current st) (rows st)
  else if negb (inTable st) then st
  else
    match exec rowRe line with
    | Some m =>
        mkRowState (inTable st) (Some (startRow (grp 1 m) (grp 3 m))) (pushCurrent st)
    | None =>
        match current st with
        | Some c => mkRowState (inTable st) (Some (appendLine c line)) (rows st)
        | None => st
        end
    end.

Definition parseRows (text : string) : list ParsedRow :=
  let lines := normalizedLines text in
  let final := fold_left rowStep lines (mkRowState false None []) in
  filter (fun r => 0 <? String.length (particulars r)) (pushCurrent final).

Definition isPos (o : option Q) : bool :=
  match o with
  | Some q => Qltb 0 q
  | None => false
  end.

(** [/(salary|interest|refund|credit|cr\b|deposit|cashback|received)/i] *)
Definition creditHintRe : regex :=
  Group 1 (alts [ stri "salary"; stri "interest"; stri "refund"; stri "credit";
                  Seq (stri "cr") WordB; stri "deposit"; stri "cashback";
                  stri "received" ]).

Definition orDefault (o : option Q) : Q :=
  match o with Some q => q | None => 0%Q end.

(** The amount chosen by the [if / else if] chain of [rowsToTxns]; [None] is
    the final [continue]. *)
Definition resolveAmount (prevBalance : option Q) (r : ParsedRow) : option Q :=
  let hasDeposit := isPos (deposit r) in
  let hasWithdrawal := isPos (withdrawal r) in
  if hasDeposit && hasWithdrawal then
    Some (orDefault (deposit r) - orDefault (withdrawal r))%Q
  else if hasDeposit then Some (orDefault (deposit r))
  else if hasWithdrawal then Some (- orDefault (withdrawal r))%Q
  else
    match balance r, prevBalance with
    | Some b, Some pb => Some (b - pb)%Q
    | _, _ =>
        match txnAmount r with
        | Some a =>
            if test creditHintRe (particulars r) then Some (Qabs a)
            else Some (- Qabs a)%Q
        | None => None
        end
    end.

Definition updBalance (prevBalance : option Q) (r : ParsedRow) : option Q :=
  match balance r with
  | Some b => Some b
  | None => prevBalance
  end.

Definition txnOfRow (r : ParsedRow) (amount : Q) : ParserTxn.t :=
  ParserTxn.make (rowDate r) (particulars r) amount
    (if Qleb 0 amount then CR else DR)
    "INR" (inferCategory (particulars r))
    (if isPos (deposit r) || isPos (withdrawal r) then 84 # 100 else 68 # 100)
    "generic-v1".

(** The loop of [rowsToTxns], with the running [prevBalance] passed along. *)
Fixpoint rowsToTxnsFrom (prevBalance : option Q) (rows : list ParsedRow)
  : list ParserTxn.t :=
  match rows with
  | [] => []
  | r :: rows' =>
      if includes "opening balance" (toLowerCase (particulars r)) then
        rowsToTxnsFrom (updBalance prevBalance r) rows'
      else
        match resolveAmount prevBalance r with
        | None => rowsToTxnsFrom prevBalance rows'
        | Some amount =>
            txnOfRow r amount :: rowsToTxnsFrom (updBalance prevBalance r) rows'
        end
  end.

Definition rowsToTxns (rows : list ParsedRow) : list ParserTxn.t :=
  rowsToTxnsFrom None rows.

Definition canParse (text : string) : Q :=
  let lower := toLowerCase text in
  if includes "value date" lower && includes "withdraw" lower && includes "deposit" lower
  then 75 # 100
  else if includes "transaction date" lower && includes "withdraw" lower
  then 55 # 100
  else 2 # 10.

Definition parse (text : string) : list ParserTxn.t :=
  rowsToTxns (parseRows text).

End Generic.

(* ===================================================================== *)
(** * lib/parsers/icici.ts *)
(* ===================================================================== *)

Module Icici.
Import Text Regex Num Common.

(** [^(?:\d+\s+)?(DATE_TOKEN)\s+(REST)$], where [REST] is any run of
    characters other than line terminators. *)
Definition rowRe : regex :=
  Seq Bol (Seq (Opt (Seq (Plus digit) (Plus space)))
    (Seq (Group 1 DATE_TOKEN)
      (Seq (Plus space) (Seq (Group 2 (Star dot)) Eol)))).

(** [/(salary|interest|refund|credit|cashback|received)/i] *)
Definition creditHintRe : regex :=
  Group 1 (alts [ stri "salary"; stri "interest"; stri "refund"; stri "credit";
                  stri "cashback"; stri "received" ]).

(** [/transaction date|withdrawal amount|deposit amount|balance/i] *)
Definition headerWordsRe : regex :=
  alts [ stri "transaction date"; stri "withdrawal amount";
         stri "deposit amount"; stri "balance" ].

Definition positive (q : Q) : option Q := if Qltb 0 q then Some q else None.

(** The pair [(withdrawal, deposit)] decided for one row. *)
Definition sides (prevBalance : option Q) (values : list Q) (rest : string)
  : option Q * option Q :=
  let n := List.length values in
  let balance := nth (n - 1) values 0%Q in
  let prev1 := if 2 <=? n then nth (n - 2) values 0%Q else 0%Q in
  let prev2 := if 3 <=? n then nth_error values (n - 3) else None in
  match prev2 with
  | Some p2 => (positive p2, positive prev1)
  | None =>
      match prevBalance with
      | Some pb =>
          let delta := (balance - pb)%Q in
          if Qleb 0 delta then (None, Some (Qabs delta)) else (Some (Qabs delta), None)
      | None =>
          if test creditHintRe rest then (None, Some (Qabs prev1))
          else (Some (Qabs prev1), None)
      end
  end.

Definition tailIndex (amountMatches : list rmatch) (rest : string) : nat :=
  let n := List.length amountMatches in
  match nth_error amountMatches (if 3 <=? n then n - 3 else n - 2) with
  | Some m => index m
  | None => String.length rest
  end.

(** One iteration of the loop of [parseIciciRows]: the new [prevBalance] and
    the transaction pushed, if any. *)
Definition lineStep (prevBalance : option Q) (line : string)
  : option Q * option ParserTxn.t :=
  match exec rowRe line with
  | None => (prevBalance, None)
  | Some m =>
      let date := toIsoDate (grp 1 m) in
      let rest := grp 2 m in
      let amountMatches := matchAll amountRe rest in
      if List.length amountMatches <? 2 then (prevBalance, None)
      else
        let values :=
          Generic.keepSome (map (fun a => parseAmountToken (matched a)) amountMatches) in
        if List.length values <? 2 then (prevBalance, None)
        else
          let balance := nth (List.length values - 1) values 0%Q in
          let (withdrawal, deposit) := sides prevBalance values rest in
          let description :=
            trim (replaceAll (Plus space) " " (take (tailIndex amountMatches rest) rest)) in
          if (String.length description =? 0) || test headerWordsRe description
          then (prevBalance, None)
          else
            let amount := (Generic.orDefault deposit - Generic.orDefault withdrawal)%Q in
            (Some balance,
             Some (ParserTxn.make date description amount
                     (if Qleb 0 amount then CR else DR)
                     "INR" (inferCategory description) (86 # 100) "icici-v1"))
  end.

Fixpoint linesToTxns (prevBalance : option Q) (lines : list string)
  : list ParserTxn.t :=
  match lines with
  | [] => []
  | line :: lines' =>
      let (pb, t) := lineStep prevBalance line in
      match t with
      | Some t => t :: linesToTxns pb lines'
      | None => linesToTxns pb lines'
      end
  end.

Definition parseIciciRows (text : string) : list ParserTxn.t :=
  linesToTxns None (normalizedLines text).

Definition canParse (text : string) : Q :=
  let l := toLowerCase text in
  if includes "icici bank" l && includes "transaction remarks" l then 95 # 100
  else if includes "icici" l && includes "withdrawal amount" l
          && includes "deposit amount" l then 8 # 10
  else 5 # 100.

Definition parse (text : string) : list ParserTxn.t := parseIciciRows text.

End Icici.

(* ===================================================================== *)
(** * lib/parsers/index.ts *)
(* ===================================================================== *)

(** The result of a call that may throw. *)
Inductive outcome (A : Type) : Type :=
| Returned (a : A)
| Thrown (e : string).

Arguments Returned {A} a.
Arguments Thrown {A} e.

Module Registry.
Import Text Num.

Definition bind {A B} (o : outcome A) (f : A -> outcome B) : outcome B :=
  match o with
  | Returned a => f a
  | Thrown e => Thrown e
  end.

Notation "x <- c ;; k" := (bind c (fun x => k))
  (at level 61, c at next level, right associativity).

Record StatementParser : Type := mkParser {
  id : string;
  canParse : string -> outcome Q;
  parse : string -> outcome (list ParserTxn.t)
}.

Record ParserRunResult : Type := mkResult {
  parserId : string;
  score : Q;
  txns : list ParserTxn.t
}.

Definition iciciStatementParser : StatementParser :=
  mkParser "icici-v1"
    (fun text => Returned (Icici.canParse text))
    (fun text => Returned (Icici.parse text)).

Definition genericStatementParser : StatementParser :=
  mkParser "generic-v1"
    (fun text => Returned (Generic.canParse text))
    (fun text => Returned (Generic.parse text)).

Definition PARSERS : list StatementParser :=
  [iciciStatementParser; genericStatementParser].

Definition ofNat (n : nat) : Q := inject_Z (Z.of_nat n).

Definition parserScore (txns : list ParserTxn.t) (hint : Q) : Q :=
  if List.length txns =? 0 then (hint * 5)%Q
  else
    let avgConf := (sumQ (map ParserTxn.confidence txns) / ofNat (List.length txns))%Q in
    (ofNat (List.length txns) * ((55 # 100) + avgConf * (45 # 100)) + hint * 25)%Q.

(** The body of the [for (const parser of PARSERS)] loop. *)
Definition pipelineStep (text : string) (best : ParserRunResult)
  (parser : StatementParser) : outcome ParserRunResult :=
  hint <- canParse parser text ;;
  if Qleb hint 0 then Returned best
  else
    txns <- parse parser text ;;
    let score := parserScore txns hint in
    if Qltb (Registry.score best) score
    then Returned (mkResult (id parser) score txns)
    else Returned best.

Fixpoint pipelineLoop (text : string) (best : ParserRunResult)
  (parsers : list StatementParser) : outcome ParserRunResult :=
  match parsers with
  | [] => Returned best
  | parser :: parsers' =>
      best' <- pipelineStep text best parser ;;
      pipelineLoop text best' parsers'
  end.

Definition noResult : ParserRunResult := mkResult "none" 0 [].

(** [runParserPipeline] over an arbitrary registry. *)
Definition runParserPipelineWith (parsers : list StatementParser) (text : string)
  : outcome ParserRunResult :=
  pipelineLoop text noResult parsers.

Definition runParserPipeline (text : string) : outcome ParserRunResult :=
  runParserPipelineWith PARSERS text.

End Registry.

(* ===================================================================== *)
(** * app/api/analyze/route.ts *)
(* ===================================================================== *)

Module Route.
Import Text Regex Num Common.

Record Txn : Type := mkTxn {
  id : string;
  date : string;
  description : string;
  amount : Q;
  drCr : option DrCr;
  sourceParser : option string;
  currency : string;
  category : string;
  confidence : Q
}.

Record ParsedRow : Type := mkRow {
  rowDate : string;
  valueDate : option string;
  particulars : string;
  withdrawal : option Q;
  deposit : option Q;
  txnAmount : option Q;
  balance : option Q;
  balanceType : option DrCr
}.

(** [toIsoDate], [inferCategory] and [looksLikeHeader] of this file are
    copies of the ones of [common.ts] and [generic.ts]. *)
Definition toIsoDate := Common.toIsoDate.
Definition inferCategory := Common.inferCategory.
Definition looksLikeHeader := Generic.looksLikeHeader.

(** [/^\d+(?:\.\d{1,2})?$/]: no sign, unlike [common.ts]. *)
Definition amountTokenRe : regex :=
  Seq Bol (Seq (Plus digit) (Seq (Opt (Seq (lit ".") (Rep 1 2 digit))) Eol)).

Definition parseAmountToken (token : string) : option Q :=
  let normalized := normalizeAmountToken token in
  if negb (test amountTokenRe normalized) then None
  else Some (numberOfDecimal normalized).

(** [/^(DR|CR)$/i] and [/\b(DR|CR)\b/i] *)
Definition drcrTokenRe : regex :=
  Seq Bol (Seq (Group 1 (Alt (stri "DR") (stri "CR"))) Eol).
Definition drcrWordRe : regex :=
  Seq WordB (Seq (Group 1 (Alt (stri "DR") (stri "CR"))) WordB).

Definition drcrOfString (s : string) : option DrCr :=
  if String.eqb (toUpperCase s) "DR" then Some DR
  else if String.eqb (toUpperCase s) "CR" then Some CR
  else None.

Definition balanceTypeOf (restRaw : string) : option DrCr :=
  let tokens := filter nonEmpty (split (lit " ") restRaw) in
  let lastToken := nth (List.length tokens - 1) tokens EmptyString in
  if (0 <? List.length tokens) && test drcrTokenRe lastToken
  then drcrOfString lastToken
  else
    match exec drcrWordRe restRaw with
    | Some crdr => drcrOfString (grp 1 crdr)
    | None => None
    end.

(** The body of the [if (txStart)] branch of [parseStatementRows]. *)
Definition startRow (dateRaw : string) (valueDateRaw : option string)
  (restRaw : string) : ParsedRow :=
  let amountMatches := matchAll amountRe restRaw in
  let amountValues :=
    Generic.keepSome (map (fun m => parseAmountToken (matched m)) amountMatches) in
  let lastThree := lastN 3 amountValues in
  let idx := Generic.firstTailIndex amountMatches restRaw in
  let particulars := trim (replaceAll (Plus space) " " (take idx restRaw)) in
  let n := List.length lastThree in
  mkRow (toIsoDate dateRaw)
    (match valueDateRaw with
     | Some v => if nonEmpty v then Some (toIsoDate v) else None
     | None => None
     end)
    particulars
    (if n =? 3 then nth_error lastThree 0 else None)
    (if n =? 3 then nth_error lastThree 1 else None)
    (if n =? 2 then nth_error lastThree 0 else None)
    (if 0 <? n then nth_error lastThree (n - 1) else None)
    (balanceTypeOf restRaw).

Record rowState : Type := mkRowState {
  inTable : bool;
  current : option ParsedRow;
  rows : list ParsedRow
}.

Definition pushCurrent (st : rowState) : list ParsedRow :=
  match current st with
  | Some c => rows st ++ [c]
  | None => rows st
  end.

Definition appendLine (c : ParsedRow) (line : string) : ParsedRow :=
  mkRow (rowDate c) (valueDate c)
    (trim (String.append (particulars c) (String.append " " line)))
    (withdrawal c) (deposit c) (txnAmount c) (balance c) (balanceType c).

Definition rowStep (st : rowState) (line : string) : rowState :=
  if negb (inTable st) && looksLikeHeader line then
    mkRowState true (current st) (rows st)
  else if negb (inTable st) then st
  else
    match exec Generic.rowRe line with
    | Some txStart =>
        mkRowState (inTable st)
          (Some (startRow (grp 1 txStart) (group 2 txStart) (grp 3 txStart)))
          (pushCurrent st)
    | None =>
        match current st with
        | Some c =>
            if negb (looksLikeHeader line)
            then mkRowState (inTable st) (Some (appendLine c line)) (rows st)
            else st
        | None => st
        end
    end.

Definition parseStatementRows (text : string) : list ParsedRow :=
  let lines := normalizedLines text in
  let final := fold_left rowStep lines (mkRowState false None []) in
  filter (fun r => 0 <? String.length (particulars r)) (pushCurrent final).

Definition isCR (o : option DrCr) : bool :=
  match o with Some CR => true | _ => false end.
Definition isDR (o : option DrCr) : bool :=
  match o with Some DR => true | _ => false end.

(** The [if / else if] chain of [toTxns]; [amount] starts at [0]. *)
Definition resolveAmount (prevBalance : option Q) (r : ParsedRow) : Q :=
  let hasDeposit := Generic.isPos (deposit r) in
  let hasWithdrawal := Generic.isPos (withdrawal r) in
  if hasDeposit && hasWithdrawal then
    (Generic.orDefault (deposit r) - Generic.orDefault (withdrawal r))%Q
  else if hasDeposit then Generic.orDefault (deposit r)
  else if hasWithdrawal then (- Generic.orDefault (withdrawal r))%Q
  else
    match balance r, prevBalance with
    | Some b, Some pb => (b - pb)%Q
    | _, _ =>
        match txnAmount r with
        | Some a =>
            if test Generic.creditHintRe (particulars r) then Qabs a
            else (- Qabs a)%Q
        | None =>
            match balance r with
            | Some b => if isCR (balanceType r) then Qabs b else (- Qabs b)%Q
            | None => 0%Q
            end
        end
    end.

Definition updBalance (prevBalance : option Q) (r : ParsedRow) : option Q :=
  match balance r with
  | Some b => Some (if isDR (balanceType r) then (- Qabs b)%Q else Qabs b)
  | None => prevBalance
  end.

Definition dash (a b : string) : string :=
  String.append a (String.append "-" b).

Definition txnOfRow (i : nat) (r : ParsedRow) (amount : Q) : Txn :=
  mkTxn (dash (rowDate r) (stringOfNat (i + 1)))
    (rowDate r) (particulars r) amount
    (Some (if Qleb 0 amount then CR else DR))
    None
    "INR" (inferCategory (particulars r))
    (if Generic.isPos (deposit r) || Generic.isPos (withdrawal r)
     then 82 # 100 else 62 # 100).

(** The loop of [toTxns] from index [i], with the running [prevBalance]. *)
Fixpoint toTxnsFrom (i : nat) (prevBalance : option Q) (rows : list ParsedRow)
  : list Txn :=
  match rows with
  | [] => []
  | r :: rows' =>
      let amount := resolveAmount prevBalance r in
      let prevBalance' := updBalance prevBalance r in
      if includes "opening balance" (toLowerCase (particulars r))
      then toTxnsFrom (S i) prevBalance' rows'
      else txnOfRow i r amount :: toTxnsFrom (S i) prevBalance' rows'
  end.

Definition toTxns (rows : list ParsedRow) : list Txn := toTxnsFrom 0 None rows.

Definition txnOfParserTxn (pid : string) (i : nat) (t : ParserTxn.t) : Txn :=
  mkTxn (dash (ParserTxn.date t) (dash pid (stringOfNat (i + 1))))
    (ParserTxn.date t) (ParserTxn.description t) (ParserTxn.amount t)
    (Some (ParserTxn.drCr t)) (Some (ParserTxn.sourceParser t))
    (ParserTxn.currency t) (ParserTxn.category t) (ParserTxn.confidence t).

Fixpoint mapi {A B} (f : nat -> A -> B) (i : nat) (l : list A) : list B :=
  match l with
  | [] => []
  | a :: l' => f i a :: mapi f (S i) l'
  end.

Definition parseTransactionsFromText (text : string) : outcome (list Txn) :=
  Registry.bind (Registry.runParserPipeline text) (fun result =>
    Returned (mapi (txnOfParserTxn (Registry.parserId result)) 0
                (Registry.txns result))).

(** [/^(\d{4})-(\d{2})-\d{2}$/] *)
Definition monthKeyRe : regex :=
  Seq Bol (Seq (Group 1 (times 4 digit)) (Seq (lit "-")
    (Seq (Group 2 (times 2 digit)) (Seq (lit "-") (Seq (times 2 digit) Eol))))).

Definition monthKey (dateIso : string) : option string :=
  match exec monthKeyRe dateIso with
  | None => None
  | Some m => Some (dash (grp 1 m) (grp 2 m))
  end.

(** [/\b(UPI|IMPS|NEFT|RTGS|POS|ATM|TO|BY|TRANSFER|PAYMENT|DEBIT|CREDIT|REF|TXN|ID)\b/g] *)
Definition stopWordRe : regex :=
  Seq WordB (Seq (Group 1 (alts (map str
    [ "UPI"; "IMPS"; "NEFT"; "RTGS"; "POS"; "ATM"; "TO"; "BY"; "TRANSFER";
      "PAYMENT"; "DEBIT"; "CREDIT"; "REF"; "TXN"; "ID" ]))) WordB).

(** [/[0-9#*._/-]+/g] *)
Definition noiseRe : regex :=
  Plus (Chr (fun c => isDigit c || includes (String c EmptyString) "#*._/-")).

Definition normalizeMerchant (description : string) : string :=
  trim (replaceAll (Plus space) " "
    (replaceAll noiseRe " "
      (replaceAll stopWordRe " " (toUpperCase description)))).

(** ** The insights engine *)

Module CategoryEntry.
Record t : Type := make { category : string; count : nat; total : Q }.
End CategoryEntry.

Module MonthEntry.
Record t : Type := make { month : string; income : Q; expense : Q; net : Q }.
End MonthEntry.

Module Subscription.
Record t : Type := make {
  merchant : string; count : nat; avgAmount : Q; totalAmount : Q
}.
End Subscription.

Module UnusualSpend.
Record t : Type := make { id : string; date : string; description : string; amount : Q }.
End UnusualSpend.

Module Top.
Record t : Type := make { description : string; amount : Q }.
End Top.

Record Insights : Type := mkInsights {
  transactionCount : nat;
  totalDebits : Q;
  totalCredits : Q;
  netFlow : Q;
  incomeExpenseRatio : option Q;
  avgDebit : Q;
  avgCredit : Q;
  categoryBreakdown : list CategoryEntry.t;
  monthOverMonth : list MonthEntry.t;
  subscriptions : list Subscription.t;
  unusualSpends : list UnusualSpend.t;
  topExpense : option Top.t;
  topCredit : option Top.t
}.

(** A JavaScript [Map] with string keys: the entries in insertion order.
    [upsert k f m] is [m.set(k, f(m.get(k)))]. *)
Fixpoint upsert {V} (k : string) (f : option V -> V) (m : list (string * V))
  : list (string * V) :=
  match m with
  | [] => [(k, f None)]
  | (k', v) :: m' =>
      if String.eqb k' k then (k', f (Some v)) :: m'
      else (k', v) :: upsert k f m'
  end.

(** [Array.prototype.sort] is a stable sort; [before a b] stands for
    [compare(a, b) < 0]. *)
Fixpoint insertBy {A} (before : A -> A -> bool) (x : A) (l : list A) : list A :=
  match l with
  | [] => [x]
  | y :: l' => if before y x then y :: insertBy before x l' else x :: y :: l'
  end.

Definition sortBy {A} (before : A -> A -> bool) (l : list A) : list A :=
  fold_right (insertBy before) [] l.

Definition absAmount (t : Txn) : Q := Qabs (amount t).

(** [t.drCr ? t.drCr === "DR" : t.amount < 0] *)
Definition isDebit (t : Txn) : bool :=
  match drCr t with
  | Some d => match d with DR => true | CR => false end
  | None => Qltb (amount t) 0
  end.

(** [t.drCr ? t.drCr === "CR" : t.amount > 0] *)
Definition isCredit (t : Txn) : bool :=
  match drCr t with
  | Some d => match d with CR => true | DR => false end
  | None => Qltb 0 (amount t)
  end.

Definition debitsOf (txns : list Txn) : list Txn := filter isDebit txns.
Definition creditsOf (txns : list Txn) : list Txn := filter isCredit txns.

Definition totalAbs (l : list Txn) : Q := sumQ (map absAmount l).

Definition topBy (better : Txn -> Txn -> bool) (l : list Txn) : option Txn :=
  fold_left (fun best t =>
    match best with
    | None => Some t
    | Some b => if better t b then Some t else Some b
    end) l None.

Definition categoriesOf (txns : list Txn) : list CategoryEntry.t :=
  let categoryMap :=
    fold_left (fun m t =>
      upsert (category t)
        (fun o =>
           let entry := match o with Some e => e | None => (0, 0%Q) end in
           (fst entry + 1, (snd entry + absAmount t)%Q)) m) txns [] in
  sortBy (fun a b => Qltb (CategoryEntry.total b) (CategoryEntry.total a))
    (map (fun kv => CategoryEntry.make (fst kv) (fst (snd kv)) (snd (snd kv)))
       categoryMap).

(** One iteration of the loop that fills [monthMap]. *)
Definition monthStep (m : list (string * (Q * Q))) (t : Txn)
  : list (string * (Q * Q)) :=
  match monthKey (date t) with
  | None => m
  | Some mk =>
      upsert mk
        (fun o =>
           let entry := match o with Some e => e | None => (0%Q, 0%Q) end in
           let type :=
             match drCr t with
             | Some d => d
             | None => if Qleb 0 (amount t) then CR else DR
             end in
           match type with
           | CR => ((fst entry + absAmount t)%Q, snd entry)
           | DR => (fst entry, (snd entry + absAmount t)%Q)
           end) m
  end.

(** [a.localeCompare(b)] on month keys, which are digits and a hyphen: the
    order of the character codes. *)
Definition monthsOf (txns : list Txn) : list MonthEntry.t :=
  let monthMap := fold_left monthStep txns [] in
  map (fun kv =>
         MonthEntry.make (fst kv) (fst (snd kv)) (snd (snd kv))
           (fst (snd kv) - snd (snd kv))%Q)
    (sortBy (fun a b => String.ltb (fst a) (fst b)) monthMap).

(** The loop that fills [merchantGroups] from the debits. *)
Definition groupStep (m : list (string * list Txn)) (t : Txn)
  : list (string * list Txn) :=
  let merchant := normalizeMerchant (description t) in
  if (String.length merchant =? 0) || (String.length merchant <? 3) then m
  else upsert merchant (fun o => match o with Some arr => arr ++ [t] | None => [t] end) m.

Definition merchantGroups (debits : list Txn) : list (string * list Txn) :=
  fold_left groupStep debits [].

Fixpoint dedup (l : list string) : list string :=
  match l with
  | [] => []
  | x :: l' => if existsb (String.eqb x) l' then dedup l' else x :: dedup l'
  end.

(** [new Set(list.map(t => monthKey(t.date)).filter(Boolean)).size] *)
Definition monthCountOf (list : list Txn) : nat :=
  List.length (dedup (Generic.keepSome (map (fun t => monthKey (date t)) list))).

Record groupStats : Type := mkGroupStats {
  g_merchant : string;
  g_count : nat;
  g_monthCount : nat;
  g_avgAmount : Q;
  g_totalAmount : Q
}.

Definition statsOf (kv : string * list Txn) : groupStats :=
  let total := totalAbs (snd kv) in
  let avg := (total / Registry.ofNat (List.length (snd kv)))%Q in
  mkGroupStats (fst kv) (List.length (snd kv)) (monthCountOf (snd kv)) avg total.

Definition qualifies (g : groupStats) : bool :=
  (2 <=? g_count g) && (2 <=? g_monthCount g).

Definition subscriptionsOf (txns : list Txn) : list Subscription.t :=
  map (fun g => Subscription.make (g_merchant g) (g_count g) (g_avgAmount g)
                  (g_totalAmount g))
    (firstn 10
       (sortBy (fun a b => Qltb (g_totalAmount b) (g_totalAmount a))
          (filter qualifies (map statsOf (merchantGroups (debitsOf txns)))))).

Definition mean (debitAbs : list Q) : Q :=
  if List.length debitAbs =? 0 then 0%Q
  else (sumQ debitAbs / Registry.ofNat (List.length debitAbs))%Q.

Definition variance (debitAbs : list Q) : Q :=
  if 1 <? List.length debitAbs then
    let m := mean debitAbs in
    (sumQ (map (fun v => (v - m) * (v - m))%Q debitAbs)
     / Registry.ofNat (List.length debitAbs))%Q
  else 0%Q.

(** [Math.sqrt(variance)], a real number. *)
Definition stdDev (debitAbs : list Q) : Rdefinitions.R :=
  R_sqrt.sqrt (Rdefinitions.Q2R (variance debitAbs)).

(** [Math.max(mean * 1.8, mean + 2 * stdDev)] *)
Definition unusualThreshold (debitAbs : list Q) : Rdefinitions.R :=
  Rbasic_fun.Rmax
    (Rdefinitions.Q2R (mean debitAbs * (18 # 10)))
    (Rdefinitions.Rplus (Rdefinitions.Q2R (mean debitAbs))
       (Rdefinitions.Rmult (Rdefinitions.IZR 2) (stdDev debitAbs))).

(** [x > unusualThreshold], decided on the rationals: [x] exceeds
    [mean + 2 * sqrt variance] exactly when it exceeds [mean] and the square of
    the excess exceeds [4 * variance] (lemma [exceedsThreshold_spec]). *)
Definition exceedsThreshold (debitAbs : list Q) (x : Q) : bool :=
  let m := mean debitAbs in
  Qltb (m * (18 # 10)) x
  && Qltb m x
  && Qltb (4 * variance debitAbs) ((x - m) * (x - m)).

Definition unusualOf (txns : list Txn) : list UnusualSpend.t :=
  let debits := debitsOf txns in
  let debitAbs := map absAmount debits in
  map (fun t => UnusualSpend.make (id t) (date t) (description t) (absAmount t))
    (firstn 10
       (sortBy (fun a b => Qltb (absAmount b) (absAmount a))
          (filter (fun t => exceedsThreshold debitAbs (absAmount t)
                            && Qltb 1000 (absAmount t)) debits))).

Definition buildInsights (txns : list Txn) : Insights :=
  let debits := debitsOf txns in
  let credits := creditsOf txns in
  let totalDebits := totalAbs debits in
  let totalCredits := totalAbs credits in
  let topExpenseTxn := topBy (fun t best => Qltb (absAmount best) (absAmount t)) debits in
  let topCreditTxn := topBy (fun t best => Qltb (amount best) (amount t)) credits in
  mkInsights
    (List.length txns)
    totalDebits
    totalCredits
    (totalCredits - totalDebits)%Q
    (if Qltb 0 totalDebits then Some (totalCredits / totalDebits)%Q else None)
    (if List.length debits =? 0 then 0%Q
     else (totalDebits / Registry.ofNat (List.length debits))%Q)
    (if List.length credits =? 0 then 0%Q
     else (totalCredits / Registry.ofNat (List.length credits))%Q)
    (categoriesOf txns)
    (monthsOf txns)
    (subscriptionsOf txns)
    (unusualOf txns)
    (match topExpenseTxn with
     | Some t => Some (Top.make (description t) (absAmount t))
     | None => None
     end)
    (match topCreditTxn with
     | Some t => Some (Top.make (description t) (amount t))
     | None => None
     end).

End Route.

(* ===================================================================== *)
(** * Specification vocabulary *)
(* ===================================================================== *)

Module Spec.
Import Text Regex Num Common.

(** A row that carries a balance and nothing else. *)
Definition balanceOnly (r : Route.ParsedRow) (b : Q) : Prop :=
  Route.withdrawal r = None /\ Route.deposit r = None
  /\ Route.txnAmount r = None /\ Route.balance r = Some b.

Definition genericBalanceOnly (r : Generic.ParsedRow) (b : Q) : Prop :=
  Generic.withdrawal r = None /\ Generic.deposit r = None
  /\ Generic.txnAmount r = None /\ Generic.balance r = Some b.

Definition isOpening (particulars : string) : bool :=
  includes "opening balance" (toLowerCase particulars).

End Spec.

(** Sample inputs used by the examples below. *)
Module Samples.

(** A row with a balance of 100 and no other amount, no [balanceType]. *)
Definition balanceRow : Route.ParsedRow :=
  Route.mkRow "2024-01-01" None "ATM CASH" None None None (Some 100%Q) None.

Definition balanceRowCR : Route.ParsedRow :=
  Route.mkRow "2024-01-01" None "ATM CASH" None None None (Some 100%Q) (Some CR).

Definition genericBalanceRow : Generic.ParsedRow :=
  Generic.mkRow "2024-01-01" "ATM CASH" None None None (Some 100%Q).

End Samples.

(** Vocabulary for the parser registry. *)
Module RegistrySpec.
Import Registry.

(** The strategy returns normally on [text]: its [canParse] returns, and its
    [parse] returns whenever the hint makes the registry call it. *)
Definition behaves (text : string) (p : StatementParser) : Prop :=
  exists h : Q,
    canParse p text = Returned h
    /\ (Num.Qleb h 0 = true \/ exists l, parse p text = Returned l).

(** The strategy throws [e] on [text] at a call the registry makes. *)
Definition fails (text : string) (p : StatementParser) (e : string) : Prop :=
  canParse p text = Thrown e
  \/ exists h : Q,
       canParse p text = Returned h /\ Num.Qleb h 0 = false /\ parse p text = Thrown e.

(** A strategy whose [parse] always throws. *)
Definition thrower : StatementParser :=
  mkParser "broken-v1" (fun _ => Returned (1 # 2)) (fun _ => Thrown "boom").

(** The run result a strategy stands for, given its hint and its output. *)
Definition resultOf (hint : StatementParser -> Q)
  (out : StatementParser -> list ParserTxn.t) (p : StatementParser)
  : ParserRunResult :=
  mkResult (id p) (parserScore (out p) (hint p)) (out p).

(** The strategies the registry runs: those with a hint above zero. *)
Definition ran (hint : StatementParser -> Q) (parsers : list StatementParser)
  : list StatementParser :=
  filter (fun p => Num.Qltb 0 (hint p)) parsers.

(** What one iteration of the registry loop does to [best] when the strategy
    returns normally and is run. *)
Definition pick (hint : StatementParser -> Q)
  (out : StatementParser -> list ParserTxn.t)
  (best : ParserRunResult) (p : StatementParser) : ParserRunResult :=
  if Num.Qltb (score best) (parserScore (out p) (hint p))
  then resultOf hint out p else best.

(** Two strategies that differ in their name only. *)
Definition twinA : StatementParser :=
  mkParser "twin-a" (fun _ => Returned (1 # 2))
    (fun _ => Returned [ParserTxn.make "2024-01-01" "NETFLIX" (-199) DR "INR"
                          "uncategorized" (86 # 100) "twin"]).

Definition twinB : StatementParser :=
  mkParser "twin-b" (canParse twinA) (parse twinA).

Definition hintAt (text : string) (p : StatementParser) : Q :=
  match canParse p text with
  | Returned h => h
  | Thrown _ => 0%Q
  end.

Definition outAt (text : string) (p : StatementParser) : list ParserTxn.t :=
  match parse p text with
  | Returned l => l
  | Thrown _ => []
  end.

End RegistrySpec.

(** Declarative meaning of a pattern, against which the matcher is checked. *)
Module RegexSpec.
Import Text Regex.

(** The character before the position reached after reading [w]. *)
Fixpoint lastOr (pv : option ascii) (w : string) : option ascii :=
  match w with
  | EmptyString => pv
  | String c w' => lastOr (Some c) w'
  end.

(** [Matches r p pv w post]: at offset [p], after the character [pv], the
    pattern [r] can match the text [w] when [post] follows. *)
Inductive Matches : regex -> nat -> option ascii -> string -> string -> Prop :=
| M_Eps p pv post : Matches Eps p pv EmptyString post
| M_Chr (f : ascii -> bool) p pv c post :
    f c = true -> Matches (Chr f) p pv (String c EmptyString) post
| M_Seq r1 r2 p pv w1 w2 post :
    Matches r1 p pv w1 (String.append w2 post) ->
    Matches r2 (p + String.length w1) (lastOr pv w1) w2 post ->
    Matches (Seq r1 r2) p pv (String.append w1 w2) post
| M_AltL r1 r2 p pv w post :
    Matches r1 p pv w post -> Matches (Alt r1 r2) p pv w post
| M_AltR r1 r2 p pv w post :
    Matches r2 p pv w post -> Matches (Alt r1 r2) p pv w post
| M_Star0 r p pv post : Matches (Star r) p pv EmptyString post
| M_StarS r p pv w1 w2 post :
    w1 <> EmptyString ->
    Matches r p pv w1 (String.append w2 post) ->
    Matches (Star r) (p + String.length w1) (lastOr pv w1) w2 post ->
    Matches (Star r) p pv (String.append w1 w2) post
| M_Group n r p pv w post :
    Matches r p pv w post -> Matches (Group n r) p pv w post
| M_Bol pv post : Matches Bol 0 pv EmptyString post
| M_Eol p pv : Matches Eol p pv EmptyString EmptyString
| M_WordB p pv post :
    xorb (isWordOpt pv) (isWordOpt (headChar post)) = true ->
    Matches WordB p pv EmptyString post.

(** [m] is an occurrence of [r] in [s]: its text lies at its offset and is
    matched by [r] there. *)
Definition occurrence (r : regex) (s : string) (m : rmatch) : Prop :=
  exists pre post,
    s = String.append pre (String.append (matched m) post)
    /\ index m = String.length pre
    /\ Matches r (index m) (lastOr None pre) (matched m) post.

End RegexSpec.

(** Vocabulary for dates. *)
Module DateSpec.
Import Text Regex Common.

(** The canonical form [YYYY-MM-DD]: four digits, two digits, two digits. *)
Definition isIso (s : string) : bool :=
  match s with
  | String y1 (String y2 (String y3 (String y4 (String h1
      (String m1 (String m2 (String h2
        (String d1 (String d2 EmptyString))))))))) =>
      isDigit y1 && isDigit y2 && isDigit y3 && isDigit y4
      && Ascii.eqb h1 "-"
      && isDigit m1 && isDigit m2
      && Ascii.eqb h2 "-"
      && isDigit d1 && isDigit d2
  | _ => false
  end.

(** One or two digits. *)
Definition oneOrTwoDigits (s : string) : Prop :=
  allChars isDigit s = true /\ (String.length s = 1 \/ String.length s = 2).

(** A year of two or four digits. *)
Definition yearDigits (s : string) : Prop :=
  allChars isDigit s = true /\ (String.length s = 2 \/ String.length s = 4).

(** The date-token grammar: [DD/MM/YYYY] with separators [.], [/] or [-], or
    [DD Mon YYYY] / [DD-Mon-YYYY] with a month abbreviation from jan to dec
    in any case; day and month of one or two digits, year of two or four.
    [DateToken d D mm Y] also names the parts of the token [d]: the day
    digits, the two-digit month number and the year digits. *)
Inductive DateToken : string -> string -> string -> string -> Prop :=
| NumericToken (D M Y : string) (s1 s2 : ascii) :
    oneOrTwoDigits D -> oneOrTwoDigits M -> yearDigits Y ->
    isDateSep s1 = true -> isDateSep s2 = true ->
    DateToken
      (String.append D (String s1 (String.append M (String s2 Y))))
      D (padStart2 M) Y
| MonthNameToken (D Y mm : string) (a b c s1 s2 : ascii) :
    oneOrTwoDigits D -> yearDigits Y ->
    isAlpha a = true -> isAlpha b = true -> isAlpha c = true ->
    lookup (toLowerCase (String a (String b (String c EmptyString)))) monthMap
      = Some mm ->
    isSpaceOrDash s1 = true -> isSpaceOrDash s2 = true ->
    DateToken
      (String.append D (String s1 (String a (String b (String c (String s2 Y))))))
      D mm Y.

(** The year a two-digit year stands for. *)
Definition pivot (y : nat) : nat := if 70 <=? y then 1900 + y else 2000 + y.

End DateSpec.

Module DateSamples.

(** A transaction dated with a token whose month abbreviation is unknown. *)
Definition fooTxn : Route.Txn :=
  Route.mkTxn "t1" (Common.toIsoDate "01 Foo 2024") "NETFLIX" (-199) (Some DR)
    None "INR" "uncategorized" (62 # 100).

End DateSamples.

(** Vocabulary for the table locator. *)
Module TableSpec.
Import Common.

(** No line of the text is a table header. *)
Definition headerless (text : string) : Prop :=
  Forall (fun line => Generic.looksLikeHeader line = false) (normalizedLines text).

(** A statement line with no header line before it. *)
Definition bareRow : string := "01/01/2024 NETFLIX 199.00 1000.00".

End TableSpec.

Module InsightSamples.

Definition debit (id date description : string) (amount : Q) : Route.Txn :=
  Route.mkTxn id date description (- amount) (Some DR) None "INR"
    "uncategorized" (62 # 100).

(** Nine debits of 100 and one debit of 5000. *)
Definition nineSmallOneLarge : list Route.Txn :=
  repeat (debit "small" "2024-01-05" "SHOP" 100) 9
  ++ [debit "large" "2024-01-06" "LAPTOP" 5000].

(** Three debits of 199 to one merchant in three months. *)
Definition threeNetflix : list Route.Txn :=
  [ debit "n1" "2024-01-05" "NETFLIX" 199;
    debit "n2" "2024-02-05" "NETFLIX" 199;
    debit "n3" "2024-03-05" "NETFLIX" 199 ].

End InsightSamples.

(** Vocabulary for the insights engine. *)
Module InsightSpec.

(** [m.get(k)] on a map kept as the list of its entries. *)
Fixpoint assoc {V} (k : string) (m : list (string * V)) : option V :=
  match m with
  | [] => None
  | (k', v) :: m' => if String.eqb k' k then Some v else assoc k m'
  end.

(** The normalized merchant of a transaction. *)
Definition keyOf (t : Route.Txn) : string :=
  Route.normalizeMerchant (Route.description t).

(** The debits of [txns] whose normalized merchant is [k], in order. *)
Definition merchantDebits (k : string) (txns : list Route.Txn) : list Route.Txn :=
  filter (fun t => String.eqb (Route.normalizeMerchant (Route.description t)) k)
    (Route.debitsOf txns).

(** The transactions of [l] fall in at least two distinct months. *)
Definition spansTwoMonths (l : list Route.Txn) : Prop :=
  exists t1 t2 m1 m2,
    In t1 l /\ In t2 l
    /\ Route.monthKey (Route.date t1) = Some m1
    /\ Route.monthKey (Route.date t2) = Some m2
    /\ m1 <> m2.

End InsightSpec.

(** More vocabulary for the insights engine. *)
Module BreakdownSpec.

(** The transactions of a category, in order. *)
Definition inCategory (c : string) (txns : list Route.Txn) : list Route.Txn :=
  filter (fun t => String.eqb (Route.category t) c) txns.

(** [t.drCr ?? (t.amount >= 0 ? "CR" : "DR")] is ["CR"]. *)
Definition countsAsIncome (t : Route.Txn) : bool :=
  match Route.drCr t with
  | Some CR => true
  | Some DR => false
  | None => Num.Qleb 0 (Route.amount t)
  end.

(** The transactions of month [k] (a [YYYY-MM] key), in order. *)
Definition inMonth (k : string) (txns : list Route.Txn) : list Route.Txn :=
  filter (fun t => match Route.monthKey (Route.date t) with
                   | Some m => String.eqb m k
                   | None => false
                   end) txns.

End BreakdownSpec.

(* ===================================================================== *)
(** * Properties *)
(* ===================================================================== *)

Import Text Regex Num Common.

(** ** Sums of rationals *)

Lemma sumQ_snoc (l : list Q) (x : Q) : sumQ (l ++ [x]) = (sumQ l + x)%Q.
Proof. unfold sumQ. now rewrite fold_left_app. Qed.

Lemma fold_Qplus_shift (l : list Q) (a : Q) :
  (fold_left Qplus l a == a + fold_left Qplus l 0)%Q.
Proof.
  revert a. induction l as [|x l IH]; intros a; simpl.
  - ring.
  - rewrite (IH (a + x)%Q), (IH (0 + x)%Q). ring.
Qed.

Lemma sumQ_cons (x : Q) (l : list Q) : (sumQ (x :: l) == x + sumQ l)%Q.
Proof.
  unfold sumQ. simpl. rewrite fold_Qplus_shift. ring.
Qed.

Lemma sumQ_nonneg (l : list Q) :
  Forall (fun x => 0 <= x)%Q l -> (0 <= sumQ l)%Q.
Proof.
  induction 1 as [|x l Hx _ IH].
  - unfold sumQ; simpl. apply Qle_refl.
  - rewrite sumQ_cons. lra.
Qed.

Lemma totalAbs_nonneg (l : list Route.Txn) : (0 <= Route.totalAbs l)%Q.
Proof.
  unfold Route.totalAbs. apply sumQ_nonneg.
  apply Forall_forall. intros x Hx. apply in_map_iff in Hx.
  destruct Hx as [t [<- _]]. apply Qabs_nonneg.
Qed.

Lemma totalAbs_snoc (l : list Route.Txn) (t : Route.Txn) :
  Route.totalAbs (l ++ [t]) = (Route.totalAbs l + Route.absAmount t)%Q.
Proof.
  unfold Route.totalAbs. rewrite map_app. simpl. apply sumQ_snoc.
Qed.

Lemma totalAbs_filter_snoc (p : Route.Txn -> bool) (l : list Route.Txn) (t : Route.Txn) :
  (Route.totalAbs (filter p l) <= Route.totalAbs (filter p (l ++ [t])))%Q.
Proof.
  rewrite filter_app. simpl. destruct (p t).
  - rewrite totalAbs_snoc. pose proof (Qabs_nonneg (Route.amount t)).
    unfold Route.absAmount. lra.
  - rewrite app_nil_r. apply Qle_refl.
Qed.

(** C9.  Appending a transaction never decreases
    [totalDebits + totalCredits], and [netFlow] never exceeds
    [totalCredits]. *)
Theorem totals_monotone_netflow_bounded :
  (forall (L : list Route.Txn) (t : Route.Txn),
     (Route.totalDebits (Route.buildInsights L)
      + Route.totalCredits (Route.buildInsights L)
      <= Route.totalDebits (Route.buildInsights (L ++ [t]))
         + Route.totalCredits (Route.buildInsights (L ++ [t])))%Q)
  /\ (forall L : list Route.Txn,
        (Route.netFlow (Route.buildInsights L)
         <= Route.totalCredits (Route.buildInsights L))%Q).
Proof.
  split.
  - intros L t. cbn [Route.buildInsights Route.totalDebits Route.totalCredits].
    unfold Route.debitsOf, Route.creditsOf.
    pose proof (totalAbs_filter_snoc Route.isDebit L t).
    pose proof (totalAbs_filter_snoc Route.isCredit L t).
    lra.
  - intros L. cbn [Route.buildInsights Route.netFlow Route.totalCredits].
    pose proof (totalAbs_nonneg (Route.debitsOf L)). lra.
Qed.

(** ** The sign resolver *)

Lemma toTxnsFrom_no_balance (pre post : list Route.ParsedRow) (i : nat) :
  Forall (fun x => Route.balance x = None) pre ->
  Route.toTxnsFrom i None (pre ++ post)
  = Route.toTxnsFrom i None pre ++ Route.toTxnsFrom (i + List.length pre) None post.
Proof.
  intros H. revert i. induction H as [|x pre Hx _ IH]; intros i; simpl.
  - now rewrite Nat.add_0_r.
  - unfold Route.updBalance. rewrite Hx.
    rewrite IH, <- plus_n_Sm.
    now destruct (includes _ _).
Qed.

Lemma rowsToTxnsFrom_no_balance (pre post : list Generic.ParsedRow) :
  Forall (fun x => Generic.balance x = None) pre ->
  Generic.rowsToTxnsFrom None (pre ++ post)
  = Generic.rowsToTxnsFrom None pre ++ Generic.rowsToTxnsFrom None post.
Proof.
  intros H. induction H as [|x pre Hx _ IH]; simpl; [reflexivity|].
  unfold Generic.updBalance. rewrite Hx, IH.
  destruct (includes _ _); [reflexivity|].
  now destruct (Generic.resolveAmount None x).
Qed.

Lemma resolveAmount_balance_only (r : Route.ParsedRow) (b : Q) :
  Spec.balanceOnly r b ->
  Route.resolveAmount None r
  = if Route.isCR (Route.balanceType r) then Qabs b else (- Qabs b)%Q.
Proof.
  intros (Hw & Hd & Ht & Hb). unfold Route.resolveAmount.
  rewrite Hw, Hd, Ht, Hb. reflexivity.
Qed.

Lemma Qabs_pos (b : Q) : ~ (b == 0)%Q -> (0 < Qabs b)%Q.
Proof.
  intros Hb. destruct (Qlt_le_dec 0 (Qabs b)) as [H|H]; [exact H|].
  exfalso. apply Hb. pose proof (Qabs_nonneg b) as H0.
  assert (E : (Qabs b == 0)%Q) by lra.
  revert E. apply Qabs_case; intros; lra.
Qed.

(** C2 (amended).  In [toTxns], a row that carries only a balance, met while
    no previous balance is known, becomes a transaction (unless it is an
    opening-balance row) whose amount is [|balance|] when [balanceType] is
    [CR] and [-|balance|] when it is [DR] or absent.  In [rowsToTxns] of the
    generic strategy such a row yields no transaction. *)
Theorem balance_only_row_sign
  (pre post : list Route.ParsedRow) (r : Route.ParsedRow) (b : Q) :
  Forall (fun x => Route.balance x = None) pre ->
  Spec.balanceOnly r b ->
  Spec.isOpening (Route.particulars r) = false ->
  (exists a : Q,
      Route.toTxns (pre ++ r :: post)
      = Route.toTxns pre
        ++ Route.txnOfRow (List.length pre) r a
        :: Route.toTxnsFrom (S (List.length pre)) (Route.updBalance None r) post
      /\ (Route.balanceType r = Some CR -> a = Qabs b /\ (0 <= a)%Q)
      /\ (Route.balanceType r = Some DR -> a = (- Qabs b)%Q /\ (a <= 0)%Q)
      /\ (Route.balanceType r = None -> a = (- Qabs b)%Q /\ (a <= 0)%Q)
      /\ (~ (b == 0)%Q ->
          (Route.balanceType r = Some CR -> (0 < a)%Q)
          /\ (Route.balanceType r <> Some CR -> (a < 0)%Q)))
  /\ (forall (gpre gpost : list Generic.ParsedRow) (g : Generic.ParsedRow) (gb : Q),
        Forall (fun x => Generic.balance x = None) gpre ->
        Spec.genericBalanceOnly g gb ->
        Generic.rowsToTxns (gpre ++ g :: gpost)
        = Generic.rowsToTxns gpre
          ++ Generic.rowsToTxnsFrom
               (if Spec.isOpening (Generic.particulars g) then Some gb else None)
               gpost).
Proof.
  intros Hpre Hr Hop. split.
  - exists (Route.resolveAmount None r). split.
    + unfold Route.toTxns. rewrite toTxnsFrom_no_balance by exact Hpre.
      simpl. unfold Spec.isOpening in Hop. now rewrite Hop.
    + rewrite (resolveAmount_balance_only Hr).
      pose proof (Qabs_nonneg b) as Hn.
      repeat split.
      * now rewrite H.
      * rewrite H; simpl; lra.
      * now rewrite H.
      * rewrite H; simpl. lra.
      * now rewrite H.
      * rewrite H; simpl. lra.
      * intros E. rewrite E. simpl. now apply Qabs_pos.
      * intros E. pose proof (Qabs_pos H) as Hp.
        destruct (Route.balanceType r) as [[|]|]; simpl; try lra.
        now elim E.
  - intros gpre gpost g gb Hg (Hw & Hd & Ht & Hb).
    unfold Generic.rowsToTxns. rewrite rowsToTxnsFrom_no_balance by exact Hg.
    simpl. unfold Spec.isOpening, Generic.updBalance, Generic.resolveAmount.
    rewrite Hw, Hd, Ht, Hb. simpl.
    now destruct (includes _ _).
Qed.

Lemma balance_only_row_sign_witness :
  exists a : Q,
    Route.toTxns ([] ++ Samples.balanceRowCR :: [])
    = Route.toTxns []
      ++ Route.txnOfRow 0 Samples.balanceRowCR a
      :: Route.toTxnsFrom 1 (Route.updBalance None Samples.balanceRowCR) []
    /\ (0 < a)%Q.
Proof.
  destruct (@balance_only_row_sign [] [] Samples.balanceRowCR 100%Q)
    as [[a (E & _ & _ & _ & Hs)] _].
  - constructor.
  - repeat split.
  - reflexivity.
  - exists a. split; [exact E|].
    apply Hs; [discriminate | reflexivity].
Defined.

(** C2, as stated, fails: with [balanceType] absent the amount of a
    balance-only row is negative in [toTxns], and the generic strategy emits
    no transaction for the row at all. *)
Lemma balance_only_absent_type_counterexample :
  Spec.balanceOnly Samples.balanceRow 100%Q
  /\ Route.balanceType Samples.balanceRow = None
  /\ (exists t : Route.Txn,
        Route.toTxns [Samples.balanceRow] = [t]
        /\ (Route.amount t == -100)%Q
        /\ ~ (0 < Route.amount t)%Q
        /\ Route.drCr t = Some DR)
  /\ Spec.genericBalanceOnly Samples.genericBalanceRow 100%Q
  /\ Generic.rowsToTxns [Samples.genericBalanceRow] = [].
Proof.
  split; [repeat split|]. split; [reflexivity|]. split.
  - eexists. split; [reflexivity|]. split; [reflexivity|]. split.
    + cbv. discriminate.
    + reflexivity.
  - split; [repeat split | reflexivity].
Qed.

(** ** The parser registry *)

Lemma Qltb_lt (a b : Q) : Qltb a b = true <-> (a < b)%Q.
Proof.
  unfold Qltb. rewrite negb_true_iff. split; intros H.
  - apply Qnot_le_lt. intros L. apply Qle_bool_iff in L. congruence.
  - destruct (Qle_bool b a) eqn:E; [|reflexivity].
    apply Qle_bool_iff in E. lra.
Qed.

Lemma Qltb_ge (a b : Q) : Qltb a b = false <-> (b <= a)%Q.
Proof.
  unfold Qltb. rewrite negb_false_iff. apply Qle_bool_iff.
Qed.

Lemma Qleb_le (a b : Q) : Qleb a b = true <-> (a <= b)%Q.
Proof. apply Qle_bool_iff. Qed.

Lemma Qleb_gt (a b : Q) : Qleb a b = false <-> (b < a)%Q.
Proof.
  unfold Qleb. split; intros H.
  - apply Qnot_le_lt. intros L. apply Qle_bool_iff in L. congruence.
  - destruct (Qle_bool a b) eqn:E; [|reflexivity].
    apply Qle_bool_iff in E. lra.
Qed.

Lemma pipelineLoop_app (text : string) (best : Registry.ParserRunResult)
  (pre post : list Registry.StatementParser) :
  Registry.pipelineLoop text best (pre ++ post)
  = Registry.bind (Registry.pipelineLoop text best pre)
      (fun b => Registry.pipelineLoop text b post).
Proof.
  revert best. induction pre as [|p pre IH]; intros best; simpl; [reflexivity|].
  destruct (Registry.pipelineStep text best p); simpl; [apply IH | reflexivity].
Qed.

Lemma pipelineStep_behaves (text : string) (best : Registry.ParserRunResult)
  (p : Registry.StatementParser) :
  RegistrySpec.behaves text p ->
  exists b, Registry.pipelineStep text best p = Returned b.
Proof.
  intros (h & Hc & Hp). unfold Registry.pipelineStep. rewrite Hc. simpl.
  destruct (Qleb h 0) eqn:E; [eauto|].
  destruct Hp as [Hp | (l & Hl)]; [discriminate|].
  rewrite Hl. simpl. destruct (Qltb _ _); eauto.
Qed.

Lemma pipelineLoop_behaves (text : string) (ps : list Registry.StatementParser) :
  Forall (RegistrySpec.behaves text) ps ->
  forall best, exists b, Registry.pipelineLoop text best ps = Returned b.
Proof.
  induction 1 as [|p ps Hp _ IH]; intros best; simpl; [eauto|].
  destruct (pipelineStep_behaves best Hp) as (b & ->). simpl. apply IH.
Qed.

Lemma pipelineStep_fails (text : string) (best : Registry.ParserRunResult)
  (p : Registry.StatementParser) (e : string) :
  RegistrySpec.fails text p e ->
  Registry.pipelineStep text best p = Thrown e.
Proof.
  unfold Registry.pipelineStep.
  intros [Hc | (h & Hc & Hh & Hp)]; rewrite Hc; simpl; [reflexivity|].
  rewrite Hh, Hp. reflexivity.
Qed.

Lemma registered_behave (text : string) :
  Forall (RegistrySpec.behaves text) Registry.PARSERS.
Proof.
  repeat constructor.
  - exists (Icici.canParse text). split; [reflexivity|]. right. now eexists.
  - exists (Generic.canParse text). split; [reflexivity|]. right. now eexists.
Qed.

(** C1 (amended).  [runParserPipeline] does not isolate failures: when every
    strategy registered before [p] returns normally and [p] throws [e] (from
    [canParse], or from [parse] when its hint is above zero), the run throws
    [e] and the strategies after [p] are not run.  A run over strategies that
    all return normally returns, and the two registered strategies always
    do. *)
Theorem strategy_failure_propagates
  (pre post : list Registry.StatementParser) (p : Registry.StatementParser)
  (text e : string) :
  Forall (RegistrySpec.behaves text) pre ->
  RegistrySpec.fails text p e ->
  Registry.runParserPipelineWith (pre ++ p :: post) text = Thrown e
  /\ (forall ps : list Registry.StatementParser,
        Forall (RegistrySpec.behaves text) ps ->
        exists r, Registry.runParserPipelineWith ps text = Returned r)
  /\ (exists r, Registry.runParserPipeline text = Returned r).
Proof.
  intros Hpre Hp. split; [|split].
  - unfold Registry.runParserPipelineWith. rewrite pipelineLoop_app.
    destruct (pipelineLoop_behaves Hpre Registry.noResult) as (b & ->).
    simpl. now rewrite (pipelineStep_fails b Hp).
  - intros ps Hps. apply (pipelineLoop_behaves Hps).
  - apply (pipelineLoop_behaves (registered_behave text)).
Qed.

Lemma strategy_failure_propagates_witness :
  Registry.runParserPipelineWith
    ([Registry.iciciStatementParser] ++ RegistrySpec.thrower
       :: [Registry.genericStatementParser]) "01/01/2024 NETFLIX 199.00 1000.00"
  = Thrown "boom".
Proof.
  apply (@strategy_failure_propagates [Registry.iciciStatementParser]
           [Registry.genericStatementParser] RegistrySpec.thrower
           "01/01/2024 NETFLIX 199.00 1000.00" "boom").
  - repeat constructor. eexists. split; [reflexivity|]. right. now eexists.
  - right. exists (1 # 2)%Q. repeat split.
Defined.

(** C1, as stated, fails: a registry whose second strategy throws in [parse]
    does not complete; the exception reaches the caller and the strategy
    registered after it is not scored. *)
Lemma strategy_failure_counterexample :
  Registry.parse RegistrySpec.thrower "01/01/2024 NETFLIX 199.00 1000.00"
  = Thrown "boom"
  /\ Registry.runParserPipelineWith
       [Registry.iciciStatementParser; RegistrySpec.thrower;
        Registry.genericStatementParser]
       "01/01/2024 NETFLIX 199.00 1000.00"
     = Thrown "boom"
  /\ ~ (exists r,
          Registry.runParserPipelineWith
            [Registry.iciciStatementParser; RegistrySpec.thrower;
             Registry.genericStatementParser]
            "01/01/2024 NETFLIX 199.00 1000.00"
          = Returned r).
Proof.
  split; [reflexivity|]. split; [vm_compute; reflexivity|].
  intros (r & H). vm_compute in H. discriminate.
Qed.

Section RegistrySelection.

Variable text : string.
Variable hint : Registry.StatementParser -> Q.
Variable out : Registry.StatementParser -> list ParserTxn.t.

Let sc (p : Registry.StatementParser) : Q :=
  Registry.parserScore (out p) (hint p).

Lemma pipelineLoop_pick (parsers : list Registry.StatementParser)
  (best : Registry.ParserRunResult) :
  (forall p, In p parsers -> Registry.canParse p text = Returned (hint p)) ->
  (forall p, In p parsers -> (0 < hint p)%Q ->
             Registry.parse p text = Returned (out p)) ->
  Registry.pipelineLoop text best parsers
  = Returned (fold_left (RegistrySpec.pick hint out)
                (RegistrySpec.ran hint parsers) best).
Proof.
  revert best. induction parsers as [|p ps IH]; intros best H1 H2; simpl.
  - reflexivity.
  - unfold Registry.pipelineStep. rewrite (H1 p) by now left. simpl.
    destruct (Qleb (hint p) 0) eqn:E.
    + apply Qleb_le in E.
      assert (F : Qltb 0 (hint p) = false) by now apply Qltb_ge.
      rewrite F. simpl. apply IH; intros; [apply H1 | apply H2]; auto; now right.
    + apply Qleb_gt in E.
      assert (T : Qltb 0 (hint p) = true) by now apply Qltb_lt.
      rewrite T, (H2 p) by (auto; now left). simpl.
      unfold RegistrySpec.pick at 2. unfold RegistrySpec.resultOf.
      destruct (Qltb (Registry.score best) _); simpl;
        apply IH; intros; [apply H1 | apply H2 | apply H1 | apply H2]; auto;
        now right.
Qed.

Lemma fold_pick_spec (l : list Registry.StatementParser)
  (b0 : Registry.ParserRunResult) :
  let r := fold_left (RegistrySpec.pick hint out) l b0 in
  (r = b0 /\ forall q, In q l -> (sc q <= Registry.score b0)%Q)
  \/ (exists pre w post,
        l = pre ++ w :: post
        /\ r = RegistrySpec.resultOf hint out w
        /\ (Registry.score b0 < sc w)%Q
        /\ (forall q, In q pre -> (sc q < sc w)%Q)
        /\ (forall q, In q post -> (sc q <= sc w)%Q)).
Proof.
  revert b0. induction l as [|p l IH]; intros b0; simpl.
  - left. split; [reflexivity | intros q []].
  - destruct (Qltb (Registry.score b0) (Registry.parserScore (out p) (hint p))) eqn:E.
    + assert (P : RegistrySpec.pick hint out b0 p = RegistrySpec.resultOf hint out p)
        by (unfold RegistrySpec.pick; now rewrite E).
      rewrite P. clear P.
      apply Qltb_lt in E. fold (sc p) in E.
      destruct (IH (RegistrySpec.resultOf hint out p))
        as [(Hr & Hall) | (pre & w & post & Hl & Hr & Hlt & Hpre & Hpost)].
      * right. exists [], p, l. simpl.
        split; [reflexivity|]. split; [exact Hr|]. split; [exact E|].
        split; [intros q []| exact Hall].
      * right. exists (p :: pre), w, post. simpl in Hlt. fold (sc p) in Hlt.
        split; [now rewrite Hl|]. split; [exact Hr|]. split; [lra|].
        split; [|exact Hpost].
        intros q [<- | Hq]; [exact Hlt | now apply Hpre].
    + assert (P : RegistrySpec.pick hint out b0 p = b0)
        by (unfold RegistrySpec.pick; now rewrite E).
      rewrite P. clear P.
      apply Qltb_ge in E. fold (sc p) in E.
      destruct (IH b0)
        as [(Hr & Hall) | (pre & w & post & Hl & Hr & Hlt & Hpre & Hpost)].
      * left. split; [exact Hr|]. intros q [<- | Hq]; [exact E | now apply Hall].
      * right. exists (p :: pre), w, post.
        split; [now rewrite Hl|]. split; [exact Hr|]. split; [exact Hlt|].
        split; [|exact Hpost].
        intros q [<- | Hq]; [lra | now apply Hpre].
Qed.

End RegistrySelection.

Lemma ofNat_pos (n : nat) : (0 < Registry.ofNat (S n))%Q.
Proof.
  unfold Registry.ofNat. change 0%Q with (inject_Z 0).
  rewrite <- Zlt_Qlt. lia.
Qed.

Lemma parserScore_pos (l : list ParserTxn.t) (h : Q) :
  (0 < h)%Q ->
  (forall t, In t l -> (0 <= ParserTxn.confidence t)%Q) ->
  (0 < Registry.parserScore l h)%Q.
Proof.
  intros Hh Hc. unfold Registry.parserScore.
  destruct l as [|t l]; [simpl; lra|].
  cbn [List.length Nat.eqb].
  set (n := Registry.ofNat (S (List.length l))).
  set (s := sumQ (map ParserTxn.confidence (t :: l))).
  assert (Hn : (0 < n)%Q) by apply ofNat_pos.
  assert (Hs : (0 <= s)%Q).
  { apply sumQ_nonneg, Forall_forall. intros x Hx.
    apply in_map_iff in Hx. destruct Hx as (u & <- & Hu). now apply Hc. }
  assert (Ha : (0 <= s / n)%Q) by (apply Qle_shift_div_l; [exact Hn | lra]).
  assert (Hx : (0 < (55 # 100) + s / n * (45 # 100))%Q) by lra.
  pose proof (Qmult_lt_0_compat _ _ Hn Hx). lra.
Qed.

(** C4.  Over a registry whose strategies return normally, the run calls
    [parse] on exactly the strategies whose hint is above zero; a non-empty
    output scores [count * (0.55 + averageConfidence * 0.45) + hint * 25], an
    empty one [hint * 5]; the result is the strategy with the maximum score,
    and among strategies of equal score the one registered first. *)
Theorem registry_keeps_first_best
  (parsers : list Registry.StatementParser) (text : string)
  (hint : Registry.StatementParser -> Q)
  (out : Registry.StatementParser -> list ParserTxn.t) :
  (forall p, In p parsers -> Registry.canParse p text = Returned (hint p)) ->
  (forall p, In p parsers -> (0 < hint p)%Q ->
             Registry.parse p text = Returned (out p)) ->
  (forall p t, In p parsers -> In t (out p) -> (0 <= ParserTxn.confidence t)%Q) ->
  let sc := fun p => Registry.parserScore (out p) (hint p) in
  let n := fun p => Registry.ofNat (List.length (out p)) in
  let avg := fun p => (sumQ (map ParserTxn.confidence (out p)) / n p)%Q in
  (forall p, out p = [] -> sc p = (hint p * 5)%Q)
  /\ (forall p, out p <> [] ->
        sc p = (n p * ((55 # 100) + avg p * (45 # 100)) + hint p * 25)%Q)
  /\ (RegistrySpec.ran hint parsers = [] ->
        Registry.runParserPipelineWith parsers text = Returned Registry.noResult)
  /\ (RegistrySpec.ran hint parsers <> [] ->
        exists pre w post,
          RegistrySpec.ran hint parsers = pre ++ w :: post
          /\ Registry.runParserPipelineWith parsers text
             = Returned (Registry.mkResult (Registry.id w) (sc w) (out w))
          /\ (forall q, In q pre -> (sc q < sc w)%Q)
          /\ (forall q, In q post -> (sc q <= sc w)%Q)).
Proof.
  intros H1 H2 H3 sc n avg.
  split; [|split; [|split]].
  - intros p E. unfold sc, Registry.parserScore. now rewrite E.
  - intros p E. unfold sc, avg, n, Registry.parserScore.
    destruct (out p); [congruence | reflexivity].
  - intros E. unfold Registry.runParserPipelineWith.
    rewrite (@pipelineLoop_pick text hint out parsers Registry.noResult H1 H2), E.
    reflexivity.
  - intros NE. unfold Registry.runParserPipelineWith.
    rewrite (@pipelineLoop_pick text hint out parsers Registry.noResult H1 H2).
    destruct (fold_pick_spec hint out (RegistrySpec.ran hint parsers) Registry.noResult)
      as [(_ & Hall) | (pre & w & post & Hl & Hr & _ & Hpre & Hpost)].
    + exfalso. destruct (RegistrySpec.ran hint parsers) as [|q l] eqn:E;
        [now apply NE|].
      assert (Hq : In q (RegistrySpec.ran hint parsers)) by (rewrite E; now left).
      unfold RegistrySpec.ran in Hq. apply filter_In in Hq.
      destruct Hq as (Hin & Hpos). apply Qltb_lt in Hpos.
      pose proof (parserScore_pos (out q) Hpos (fun t => H3 q t Hin)) as P.
      specialize (Hall q (or_introl eq_refl)). simpl in Hall. lra.
    + exists pre, w, post. rewrite Hr. repeat split; assumption.
Qed.

Lemma registry_keeps_first_best_witness :
  exists r,
    Registry.runParserPipelineWith [RegistrySpec.twinA; RegistrySpec.twinB] "x"
    = Returned r
    /\ Registry.parserId r = "twin-a".
Proof.
  destruct (@registry_keeps_first_best
              [RegistrySpec.twinA; RegistrySpec.twinB] "x"
              (RegistrySpec.hintAt "x") (RegistrySpec.outAt "x"))
    as (_ & _ & _ & H).
  - intros p [<- | [<- | []]]; reflexivity.
  - intros p [<- | [<- | []]] _; reflexivity.
  - intros p t [<- | [<- | []]] [<- | []]; cbv; discriminate.
  - destruct H as (pre & w & post & E & R & Hpre & Hpost).
    + cbv. discriminate.
    + eexists. split; [exact R|].
      assert (E' : [RegistrySpec.twinA; RegistrySpec.twinB] = pre ++ w :: post)
        by exact E.
      clear E R. destruct pre as [|a pre].
      * simpl in E'. injection E' as <- _. reflexivity.
      * exfalso. destruct pre as [|b pre].
        -- simpl in E'. injection E' as <- <- _.
           specialize (Hpre RegistrySpec.twinA (or_introl eq_refl)).
           revert Hpre. cbv. discriminate.
        -- apply (f_equal (@List.length _)) in E'.
           rewrite length_app in E'. simpl in E'. lia.
Defined.

Import RegexSpec.

(** ** The matcher against the declarative semantics *)

Lemma append_nil_r (s : string) : String.append s EmptyString = s.
Proof. induction s; simpl; congruence. Qed.

Lemma append_assoc (a b c : string) :
  String.append (String.append a b) c = String.append a (String.append b c).
Proof. induction a; simpl; congruence. Qed.

Lemma length_append (a b : string) :
  String.length (String.append a b) = String.length a + String.length b.
Proof. induction a; simpl; congruence. Qed.

Lemma lastOr_append (pv : option ascii) (a b : string) :
  lastOr pv (String.append a b) = lastOr (lastOr pv a) b.
Proof. revert pv; induction a; simpl; auto. Qed.

Lemma take_append (a b : string) :
  take (String.length a) (String.append a b) = a.
Proof. induction a; simpl; [now destruct b | congruence]. Qed.

Lemma drop_append (a b : string) :
  drop (String.length a) (String.append a b) = b.
Proof. induction a; simpl; auto. Qed.

(** The state reached from [st] by reading [w], with captures [cs]. *)
Definition reach (st : mstate) (w post : string) (cs : list (nat * string)) : mstate :=
  MState (pos st + String.length w) (lastOr (prev st) w) post cs.

Lemma starLoop_sound {A} (r : regex) (k : mstate -> option A) :
  (forall st (k' : mstate -> option A) a, run r st k' = Some a ->
     exists w post cs, rest st = String.append w post
       /\ Matches r (pos st) (prev st) w post
       /\ k' (reach st w post cs) = Some a) ->
  forall fuel st a,
    starLoop (fun st0 k0 => run r st0 k0) k fuel st = Some a ->
    exists w post cs, rest st = String.append w post
      /\ Matches (Star r) (pos st) (prev st) w post
      /\ k (reach st w post cs) = Some a.
Proof.
  intros IH. induction fuel as [|fuel IHf]; intros st a H; simpl in H.
  - exists EmptyString, (rest st), (caps st). split; [reflexivity|].
    split; [constructor|]. unfold reach. simpl. rewrite Nat.add_0_r.
    now destruct st.
  - unfold orElse in H.
    destruct (run r st _) as [a'|] eqn:E.
    + injection H as ->. apply IH in E.
      destruct E as (w1 & post1 & cs1 & Hr & Hm & Hk).
      unfold reach in Hk. cbn [rest] in Hk.
      destruct (String.length post1 <? String.length (rest st)) eqn:L; [|discriminate].
      apply IHf in Hk. destruct Hk as (w2 & post & cs & Hr2 & Hm2 & Hk).
      cbn [rest pos prev] in Hr2, Hm2. subst post1.
      exists (String.append w1 w2), post, cs.
      split; [now rewrite Hr, append_assoc|].
      split.
      * apply M_StarS; auto.
        intros ->. simpl in Hr. rewrite Hr in L.
        apply Nat.ltb_lt in L. lia.
      * unfold reach in *. cbn [pos prev] in Hk.
        now rewrite length_append, lastOr_append, Nat.add_assoc.
    + exists EmptyString, (rest st), (caps st). split; [reflexivity|].
      split; [constructor|]. unfold reach. simpl. rewrite Nat.add_0_r.
      now destruct st.
Qed.

Lemma run_sound {A} (r : regex) :
  forall st (k : mstate -> option A) a,
    run r st k = Some a ->
    exists w post cs, rest st = String.append w post
      /\ Matches r (pos st) (prev st) w post
      /\ k (reach st w post cs) = Some a.
Proof.
  induction r as [|f|r1 IH1 r2 IH2|r1 IH1 r2 IH2|r IH|n r IH| | |];
    intros st k a H; simpl in H.
  - exists EmptyString, (rest st), (caps st). split; [reflexivity|].
    split; [constructor|]. unfold reach; simpl. rewrite Nat.add_0_r. now destruct st.
  - destruct (rest st) as [|c s'] eqn:E; [discriminate|].
    destruct (f c) eqn:F; [|discriminate].
    exists (String c EmptyString), s', (caps st). split; [reflexivity|].
    split; [now constructor|]. unfold reach; simpl. now rewrite Nat.add_1_r.
  - apply IH1 in H. destruct H as (w1 & post1 & cs1 & Hr & Hm & Hk).
    apply IH2 in Hk. destruct Hk as (w2 & post & cs & Hr2 & Hm2 & Hk).
    unfold reach in Hr2, Hm2, Hk. cbn [rest pos prev] in Hr2, Hm2, Hk. subst post1.
    exists (String.append w1 w2), post, cs.
    split; [now rewrite Hr, append_assoc|].
    split; [now constructor|].
    unfold reach. now rewrite length_append, lastOr_append, Nat.add_assoc.
  - unfold orElse in H. destruct (run r1 st k) eqn:E.
    + injection H as ->. apply IH1 in E.
      destruct E as (w & post & cs & Hr & Hm & Hk).
      exists w, post, cs. repeat split; auto. now apply M_AltL.
    + apply IH2 in H. destruct H as (w & post & cs & Hr & Hm & Hk).
      exists w, post, cs. repeat split; auto. now apply M_AltR.
  - eapply starLoop_sound; eauto.
  - apply IH in H. destruct H as (w & post & cs & Hr & Hm & Hk).
    unfold setCap, reach in Hk. cbn [pos prev rest caps] in Hk.
    exists w, post, ((n, consumed st (reach st w post cs)) :: cs).
    repeat split; auto. now constructor.
  - destruct (pos st =? 0) eqn:E; [|discriminate]. apply Nat.eqb_eq in E.
    exists EmptyString, (rest st), (caps st). split; [reflexivity|].
    split; [rewrite E; constructor|]. unfold reach; simpl. rewrite Nat.add_0_r.
    now destruct st.
  - destruct (rest st) eqn:E; [|discriminate].
    exists EmptyString, EmptyString, (caps st). split; [reflexivity|].
    split; [constructor|]. unfold reach; simpl. rewrite Nat.add_0_r.
    destruct st; simpl in *; now subst.
  - destruct (xorb _ _) eqn:E; [|discriminate].
    exists EmptyString, (rest st), (caps st). split; [reflexivity|].
    split; [now constructor|]. unfold reach; simpl. rewrite Nat.add_0_r.
    now destruct st.
Qed.

Lemma matchAt_sound (r : regex) (st : mstate) (m : rmatch) :
  matchAt r st = Some m ->
  exists w post,
    rest st = String.append w post
    /\ Matches r (pos st) (prev st) w post
    /\ index m = pos st /\ matched m = w
    /\ pos (after m) = pos st + String.length w
    /\ prev (after m) = lastOr (prev st) w
    /\ rest (after m) = post.
Proof.
  unfold matchAt. intros H. apply run_sound in H.
  destruct H as (w & post & cs & Hr & Hm & Hk).
  injection Hk as <-. exists w, post. cbn.
  repeat split; auto.
  unfold consumed, reach. cbn [rest]. rewrite Hr, length_append.
  replace (String.length w + String.length post - String.length post)
    with (String.length w) by lia.
  apply take_append.
Qed.

Lemma searchFrom_sound (r : regex) (s : string) :
  forall p pv m,
    searchFrom r p pv s = Some m ->
    exists pre w post,
      s = String.append pre (String.append w post)
      /\ index m = p + String.length pre /\ matched m = w
      /\ Matches r (index m) (lastOr pv pre) w post
      /\ pos (after m) = index m + String.length w
      /\ prev (after m) = lastOr (lastOr pv pre) w
      /\ rest (after m) = post.
Proof.
  induction s as [|c s IH]; intros p pv m H; simpl in H.
  - destruct (matchAt r _) as [m'|] eqn:E; [|discriminate].
    injection H as ->. apply matchAt_sound in E.
    destruct E as (w & post & Hr & Hm & Hi & Hw & Hp & Hv & Hs).
    cbn [rest pos prev] in *.
    exists EmptyString, w, post. simpl. rewrite Nat.add_0_r.
    rewrite Hi. repeat split; auto.
  - destruct (matchAt r _) as [m'|] eqn:E.
    + injection H as ->. apply matchAt_sound in E.
      destruct E as (w & post & Hr & Hm & Hi & Hw & Hp & Hv & Hs).
      cbn [rest pos prev] in *.
      exists EmptyString, w, post. simpl. rewrite Nat.add_0_r.
      rewrite Hi. repeat split; auto.
    + apply IH in H.
      destruct H as (pre & w & post & Hs & Hi & Hw & Hm & Hp & Hv & Hr).
      exists (String c pre), w, post. simpl.
      rewrite Hs, Hi. repeat split; auto; try lia.
      now rewrite <- Hi.
Qed.

Lemma matchAllFrom_sound (r : regex) (fuel : nat) :
  forall p pv s m,
    In m (matchAllFrom fuel r p pv s) ->
    exists pre w post,
      s = String.append pre (String.append w post)
      /\ index m = p + String.length pre /\ matched m = w
      /\ Matches r (index m) (lastOr pv pre) w post.
Proof.
  induction fuel as [|fuel IH]; intros p pv s m H; simpl in H; [contradiction|].
  destruct (searchFrom r p pv s) as [m0|] eqn:E; [|contradiction].
  apply searchFrom_sound in E.
  destruct E as (pre0 & w0 & post0 & Hs & Hi & Hw & Hm & Hp & Hv & Hr).
  assert (Hfirst : m = m0 ->
    exists pre w post,
      s = String.append pre (String.append w post)
      /\ index m = p + String.length pre /\ matched m = w
      /\ Matches r (index m) (lastOr pv pre) w post).
  { intros ->. exists pre0, w0, post0. auto. }
  destruct (pos (after m0) =? index m0) eqn:Z.
  - destruct (rest (after m0)) as [|c s'] eqn:R.
    + destruct H as [<- | []]. now apply Hfirst.
    + destruct H as [<- | H]; [now apply Hfirst|].
      apply IH in H. destruct H as (pre & w & post & Hs' & Hi' & Hw' & Hm').
      exists (String.append pre0 (String.append w0 (String c pre))), w, post.
      split.
      { rewrite Hs, <- Hr, Hs'. rewrite ?append_assoc. simpl.
        now rewrite ?append_assoc. }
      split.
      { rewrite Hi', Hp, Hi, ?length_append. simpl. lia. }
      split; [assumption|].
      rewrite ?lastOr_append. simpl. exact Hm'.
  - destruct H as [<- | H]; [now apply Hfirst|].
    apply IH in H. destruct H as (pre & w & post & Hs' & Hi' & Hw' & Hm').
    exists (String.append pre0 (String.append w0 pre)), w, post.
    split.
    { rewrite Hs, <- Hr, Hs'. now rewrite ?append_assoc. }
    split.
    { rewrite Hi', Hp, Hi, ?length_append. lia. }
    split; [assumption|].
    rewrite ?lastOr_append, <- Hv. exact Hm'.
Qed.

Lemma matchAll_sound (r : regex) (s : string) (m : rmatch) :
  In m (matchAll r s) -> occurrence r s m.
Proof.
  intros H. apply matchAllFrom_sound in H.
  destruct H as (pre & w & post & Hs & Hi & Hw & Hm).
  exists pre, post. rewrite Hw. auto.
Qed.

Lemma orElse_some {A} (a b : option A) : a <> None -> orElse a b <> None.
Proof. now destruct a. Qed.

Lemma orElse_some_r {A} (a b : option A) : b <> None -> orElse a b <> None.
Proof. destruct a; simpl; [discriminate | auto]. Qed.

Lemma starLoop_ext {A} (body : mstate -> (mstate -> option A) -> option A)
  (k1 k2 : mstate -> option A) :
  (forall st ka kb, (forall x, ka x = kb x) -> body st ka = body st kb) ->
  (forall st, k1 st = k2 st) ->
  forall fuel st, starLoop body k1 fuel st = starLoop body k2 fuel st.
Proof.
  intros Hb Hk. induction fuel as [|fuel IH]; intros st; simpl; [apply Hk|].
  rewrite (Hk st). f_equal. apply Hb. intros x.
  destruct (_ <? _); [apply IH | reflexivity].
Qed.

Lemma run_ext {A} (r : regex) :
  forall st (k1 k2 : mstate -> option A),
    (forall x, k1 x = k2 x) -> run r st k1 = run r st k2.
Proof.
  induction r as [|f|r1 IH1 r2 IH2|r1 IH1 r2 IH2|r IH|n r IH| | |];
    intros st k1 k2 Hk; simpl.
  - apply Hk.
  - destruct (rest st); [reflexivity|]. destruct (f a); [apply Hk | reflexivity].
  - apply IH1. intros x. now apply IH2.
  - now rewrite (IH1 st k1 k2 Hk), (IH2 st k1 k2 Hk).
  - apply starLoop_ext; [|exact Hk]. intros st0 ka kb Hab. now apply IH.
  - apply IH. intros x. apply Hk.
  - destruct (pos st =? 0); [apply Hk | reflexivity].
  - destruct (rest st); [apply Hk | reflexivity].
  - destruct (xorb _ _); [apply Hk | reflexivity].
Qed.

Lemma starLoop_none {A} (body : mstate -> (mstate -> option A) -> option A)
  (k : mstate -> option A) :
  (forall st k', (forall x, k' x = None) -> body st k' = None) ->
  (forall st, k st = None) ->
  forall fuel st, starLoop body k fuel st = None.
Proof.
  intros Hb Hk. induction fuel as [|fuel IH]; intros st; simpl; [apply Hk|].
  rewrite Hk, Hb; [reflexivity|].
  intros x. destruct (_ <? _); [apply IH | reflexivity].
Qed.

Lemma run_none {A} (r : regex) :
  forall st (k : mstate -> option A),
    (forall x, k x = None) -> run r st k = None.
Proof.
  induction r as [|f|r1 IH1 r2 IH2|r1 IH1 r2 IH2|r IH|n r IH| | |];
    intros st k Hk; simpl.
  - apply Hk.
  - destruct (rest st); [reflexivity|]. destruct (f a); [apply Hk | reflexivity].
  - apply IH1. intros x. now apply IH2.
  - now rewrite IH1, IH2.
  - apply starLoop_none; [|exact Hk]. intros st0 k' Hk'. now apply IH.
  - apply IH. intros x. apply Hk.
  - destruct (pos st =? 0); [apply Hk | reflexivity].
  - destruct (rest st); [apply Hk | reflexivity].
  - destruct (xorb _ _); [apply Hk | reflexivity].
Qed.

(** Extra fuel does not change the loop. *)
Lemma starLoop_fuel {A} (r : regex) (k : mstate -> option A) :
  forall f1 f2 st,
    String.length (rest st) <= f1 -> String.length (rest st) <= f2 ->
    starLoop (fun st0 k0 => run r st0 k0) k f1 st
    = starLoop (fun st0 k0 => run r st0 k0) k f2 st.
Proof.
  assert (Z : forall f st, String.length (rest st) = 0 ->
            starLoop (fun st0 k0 => run r st0 k0) k f st = k st).
  { intros [|f] st E; simpl; [reflexivity|].
    rewrite run_none; [reflexivity|].
    intros x. rewrite E. reflexivity. }
  induction f1 as [|f1 IH]; intros f2 st H1 H2.
  - rewrite (Z f2 st) by lia. reflexivity.
  - destruct f2 as [|f2]; [rewrite (Z (S f1) st) by lia; reflexivity|].
    simpl. f_equal. apply run_ext. intros x.
    destruct (String.length (rest x) <? String.length (rest st)) eqn:L;
      [|reflexivity].
    apply Nat.ltb_lt in L. apply IH; lia.
Qed.

Lemma starLoop_skip {A} (body : mstate -> (mstate -> option A) -> option A)
  (k : mstate -> option A) (fuel : nat) (st : mstate) :
  k st <> None -> starLoop body k fuel st <> None.
Proof.
  destruct fuel; simpl; [auto | apply orElse_some_r].
Qed.

Lemma reach_nil (st : mstate) :
  reach st EmptyString (rest st) (caps st) = st.
Proof. unfold reach; simpl. rewrite Nat.add_0_r. now destruct st. Qed.

Lemma reach_reach (st : mstate) (w1 w2 mid post : string) (cs cs' : list (nat * string)) :
  reach (reach st w1 mid cs) w2 post cs' = reach st (String.append w1 w2) post cs'.
Proof.
  unfold reach; simpl. now rewrite length_append, lastOr_append, Nat.add_assoc.
Qed.

Lemma run_complete (r : regex) p pv w post :
  Matches r p pv w post ->
  forall A (st : mstate) (k : mstate -> option A),
    pos st = p -> prev st = pv -> rest st = String.append w post ->
    (forall cs, k (reach st w post cs) <> None) ->
    run r st k <> None.
Proof.
  induction 1 as
    [ p pv post | f p pv c post Hf | r1 r2 p pv w1 w2 post _ IH1 _ IH2
    | r1 r2 p pv w post _ IH | r1 r2 p pv w post _ IH | r p pv post
    | r p pv w1 w2 post Hne _ IH1 _ IH2 | n r p pv w post _ IH
    | pv post | p pv | p pv post Hx ];
    intros A st k Hp Hv Hr Hk; simpl.
  - simpl in Hr. specialize (Hk (caps st)). rewrite <- Hr, reach_nil in Hk. exact Hk.
  - simpl in Hr. rewrite Hr, Hf. specialize (Hk (caps st)).
    unfold reach in Hk. simpl in Hk. now rewrite Nat.add_1_r in Hk.
  - rewrite append_assoc in Hr.
    apply (IH1 A st _ Hp Hv Hr). intros cs.
    apply (IH2 A (reach st w1 (String.append w2 post) cs) k);
      [ unfold reach; cbn [pos]; congruence
      | unfold reach; cbn [prev]; congruence
      | reflexivity | ].
    intros cs'. rewrite reach_reach. apply Hk.
  - apply orElse_some. now apply IH.
  - apply orElse_some_r. now apply IH.
  - apply starLoop_skip. simpl in Hr. specialize (Hk (caps st)).
    rewrite <- Hr, reach_nil in Hk. exact Hk.
  - rewrite append_assoc in Hr.
    destruct (String.length (rest st)) as [|fuel] eqn:L.
    { exfalso. rewrite Hr, length_append in L.
      destruct w1; [now apply Hne | simpl in L; lia]. }
    simpl. apply orElse_some.
    apply (IH1 A st _ Hp Hv Hr). intros cs.
    unfold reach at 1. cbn [rest].
    assert (Lt : String.length (String.append w2 post) < String.length (rest st)).
    { rewrite Hr, !length_append. destruct w1; [now elim Hne | simpl; lia]. }
    apply Nat.ltb_lt in Lt as Lb. rewrite Lb.
    rewrite (@starLoop_fuel A r k fuel (String.length (String.append w2 post))
               (reach st w1 (String.append w2 post) cs));
      [| unfold reach; cbn [rest]; lia | unfold reach; cbn [rest]; lia].
    apply (IH2 A (reach st w1 (String.append w2 post) cs) k);
      [ unfold reach; cbn [pos]; congruence
      | unfold reach; cbn [prev]; congruence
      | reflexivity | ].
    intros cs'. rewrite reach_reach. apply Hk.
  - apply (IH A st _ Hp Hv Hr). intros cs. apply (Hk (_ :: cs)).
  - rewrite Hp. simpl. simpl in Hr. specialize (Hk (caps st)).
    rewrite <- Hr, reach_nil in Hk. exact Hk.
  - simpl in Hr. rewrite Hr. specialize (Hk (caps st)).
    unfold reach in Hk. simpl in Hk. rewrite Nat.add_0_r in Hk.
    destruct st; simpl in *; now subst.
  - simpl in Hr. rewrite Hv, Hr, Hx. specialize (Hk (caps st)).
    rewrite <- Hr, reach_nil in Hk. exact Hk.
Qed.

(** A pattern that matches a prefix of the text at offset 0 is found by
    [exec], hence accepted by [test]. *)
Lemma test_complete (r : regex) (w post : string) :
  Matches r 0 None w post -> test r (String.append w post) = true.
Proof.
  intros H. unfold test, exec.
  assert (E : searchFrom r 0 None (String.append w post) <> None).
  { assert (M : matchAt r (MState 0 None (String.append w post) []) <> None).
    { unfold matchAt. eapply run_complete; eauto. discriminate. }
    destruct (String.append w post); simpl;
      destruct (matchAt r _); congruence. }
  now destruct (searchFrom r 0 None _).
Qed.

Import DateSpec.

(** ** Dates *)

Ltac by_char c :=
  destruct c as [[|] [|] [|] [|] [|] [|] [|] [|]];
  try discriminate; repeat split; reflexivity.

Lemma digit_facts (c : ascii) :
  isDigit c = true ->
  isDateSep c = false /\ isSpaceOrDash c = false /\ isAlpha c = false
  /\ isSpace c = false.
Proof. by_char c. Qed.

Lemma dateSep_facts (c : ascii) :
  isDateSep c = true -> isDigit c = false.
Proof. by_char c. Qed.

Lemma spaceOrDash_facts (c : ascii) :
  isSpaceOrDash c = true -> isDigit c = false /\ isAlpha c = false.
Proof. by_char c. Qed.

Lemma alpha_facts (c : ascii) :
  isAlpha c = true ->
  isDigit c = false /\ isDateSep c = false /\ isSpaceOrDash c = false.
Proof. by_char c. Qed.

Lemma isDigit_inv (c : ascii) :
  isDigit c = true ->
  In c ["0"; "1"; "2"; "3"; "4"; "5"; "6"; "7"; "8"; "9"]%char.
Proof.
  destruct c as [[|] [|] [|] [|] [|] [|] [|] [|]]; try discriminate;
    intros _; simpl; tauto.
Qed.

(** Rewrite with every known value of a character predicate. *)
Ltac known :=
  repeat match goal with
  | H : ?p ?c = _ |- context [?p ?c] => rewrite H
  end.

(** Run the matcher on a text whose characters are known by their classes. *)
Ltac evalRe :=
  repeat (cbn -[isDigit isDateSep isSpaceOrDash isAlpha isSpace lookup
                toLowerCase expandYear padStart2 isoOf]; known).

Ltac char_facts :=
  repeat match goal with
  | H : isDigit ?c = true |- _ =>
      lazymatch goal with
      | _ : isDateSep c = false |- _ => fail
      | _ => destruct (digit_facts c H) as (? & ? & ? & ?)
      end
  | H : isDateSep ?c = true |- _ =>
      lazymatch goal with
      | _ : isDigit c = false |- _ => fail
      | _ => pose proof (dateSep_facts c H)
      end
  | H : isSpaceOrDash ?c = true |- _ =>
      lazymatch goal with
      | _ : isDigit c = false |- _ => fail
      | _ => destruct (spaceOrDash_facts c H) as (? & ?);
             destruct (isDateSep c) eqn:?
      end
  | H : isAlpha ?c = true |- _ =>
      lazymatch goal with
      | _ : isDigit c = false |- _ => fail
      | _ => destruct (alpha_facts c H) as (? & ? & ?)
      end
  end.

(** Split a string of known length into its characters. *)
Ltac chars_of s H L :=
  let c1 := fresh "c" in let c2 := fresh "c" in
  let c3 := fresh "c" in let c4 := fresh "c" in
  destruct s as [|c1 [|c2 [|c3 [|c4 [|? ?]]]]];
  simpl in L; try (exfalso; lia); try (destruct L; discriminate);
  simpl in H; repeat rewrite andb_true_iff in H;
  repeat match type of H with _ /\ _ => destruct H as [H ?] | _ /\ _ => idtac end.

Lemma toIsoDate_numeric (D M Y : string) (s1 s2 : ascii) :
  oneOrTwoDigits D -> oneOrTwoDigits M ->
  allChars isDigit Y = true -> 2 <= String.length Y <= 4 ->
  isDateSep s1 = true -> isDateSep s2 = true ->
  toIsoDate (String.append D (String s1 (String.append M (String s2 Y))))
  = isoOf (expandYear Y) (padStart2 M) (padStart2 D).
Proof.
  intros (HD & LD) (HM & LM) HY LY H1 H2.
  assert (LY' : String.length Y = 2 \/ String.length Y = 3 \/ String.length Y = 4) by lia.
  clear LY.
  destruct D as [|d1 [|d2 [|? ?]]]; simpl in LD; try (exfalso; lia);
  destruct M as [|m1 [|m2 [|? ?]]]; simpl in LM; try (exfalso; lia);
  destruct Y as [|y1 [|y2 [|y3 [|y4 [|? ?]]]]]; simpl in LY'; try (exfalso; lia);
  simpl in HD, HM, HY;
  repeat rewrite andb_true_iff in HD;
  repeat rewrite andb_true_iff in HM;
  repeat rewrite andb_true_iff in HY;
  repeat match goal with H : _ /\ _ |- _ => destruct H end;
  char_facts;
  unfold toIsoDate, exec, grp, group; evalRe; reflexivity.
Qed.

Lemma toIsoDate_monthName (D Y mm : string) (a b c s1 s2 : ascii) :
  oneOrTwoDigits D ->
  allChars isDigit Y = true -> 2 <= String.length Y <= 4 ->
  isAlpha a = true -> isAlpha b = true -> isAlpha c = true ->
  lookup (toLowerCase (String a (String b (String c EmptyString)))) monthMap
    = Some mm ->
  isSpaceOrDash s1 = true -> isSpaceOrDash s2 = true ->
  toIsoDate
    (String.append D (String s1 (String a (String b (String c (String s2 Y))))))
  = isoOf (expandYear Y) mm (padStart2 D).
Proof.
  intros (HD & LD) HY LY Ha Hb Hc Hl H1 H2.
  assert (LY' : String.length Y = 2 \/ String.length Y = 3 \/ String.length Y = 4) by lia.
  clear LY.
  destruct D as [|d1 [|d2 [|? ?]]]; simpl in LD; try (exfalso; lia);
  destruct Y as [|y1 [|y2 [|y3 [|y4 [|? ?]]]]]; simpl in LY'; try (exfalso; lia);
  simpl in HD, HY;
  repeat rewrite andb_true_iff in HD;
  repeat rewrite andb_true_iff in HY;
  repeat match goal with H : _ /\ _ |- _ => destruct H end;
  char_facts;
  unfold toIsoDate, exec, grp, group; evalRe; reflexivity.
Qed.

Lemma padStart2_digits (D : string) :
  oneOrTwoDigits D ->
  exists x y, padStart2 D = String x (String y EmptyString)
              /\ isDigit x = true /\ isDigit y = true.
Proof.
  intros (HD & LD).
  destruct D as [|d1 [|d2 [|? ?]]]; simpl in LD; try (exfalso; lia);
    simpl in HD; repeat rewrite andb_true_iff in HD.
  - exists "0"%char, d1. repeat split; tauto.
  - exists d1, d2. repeat split; tauto.
Qed.

Lemma expandYear_two (y1 y2 : ascii) :
  isDigit y1 = true -> isDigit y2 = true ->
  let Y := String y1 (String y2 EmptyString) in
  expandYear Y = stringOfNat (pivot (natOfDigits Y))
  /\ natOfDigits Y < 100
  /\ exists a b, expandYear Y = String a (String b Y)
                 /\ isDigit a = true /\ isDigit b = true.
Proof.
  intros H1 H2.
  apply isDigit_inv in H1. apply isDigit_inv in H2. simpl in H1, H2.
  repeat (destruct H1 as [<- | H1]; [|]); try contradiction;
  repeat (destruct H2 as [<- | H2]; [|]); try contradiction;
  (split; [reflexivity|]; split; [vm_compute; lia|];
   first [ exists "1"%char, "9"%char; vm_compute; repeat split; reflexivity
         | exists "2"%char, "0"%char; vm_compute; repeat split; reflexivity ]).
Qed.

Lemma expandYear_digits (Y : string) :
  yearDigits Y ->
  exists a b c d, expandYear Y = String a (String b (String c (String d EmptyString)))
    /\ isDigit a = true /\ isDigit b = true /\ isDigit c = true /\ isDigit d = true.
Proof.
  intros (HY & LY).
  destruct Y as [|y1 [|y2 [|y3 [|y4 [|? ?]]]]]; simpl in LY;
    try (exfalso; lia); simpl in HY; repeat rewrite andb_true_iff in HY.
  - destruct (@expandYear_two y1 y2) as (_ & _ & a & b & E & Ha & Hb); try tauto.
    exists a, b, y1, y2. rewrite E. repeat split; tauto.
  - exists y1, y2, y3, y4. repeat split; tauto.
Qed.

Lemma monthMap_digits (k mm : string) :
  lookup k monthMap = Some mm ->
  exists x y, mm = String x (String y EmptyString)
              /\ isDigit x = true /\ isDigit y = true.
Proof.
  unfold lookup. intros H.
  destruct (find _ monthMap) as [[k' v]|] eqn:E; [|discriminate].
  injection H as <-. apply find_some in E. destruct E as (E & _).
  simpl in E.
  repeat (destruct E as [E | E];
          [injection E as _ <-; eexists _, _; repeat split; reflexivity|]).
  contradiction.
Qed.

Lemma isIso_isoOf (a b c d m1 m2 d1 d2 : ascii) :
  isDigit a = true -> isDigit b = true -> isDigit c = true -> isDigit d = true ->
  isDigit m1 = true -> isDigit m2 = true -> isDigit d1 = true -> isDigit d2 = true ->
  isIso (isoOf (String a (String b (String c (String d EmptyString))))
           (String m1 (String m2 EmptyString))
           (String d1 (String d2 EmptyString))) = true.
Proof.
  intros. cbn -[isDigit]. known. reflexivity.
Qed.

(** C6.  For every date token of the grammar, [toIsoDate] returns the
    canonical [YYYY-MM-DD] form built from the year, the month number and the
    day padded to two digits; a two-digit year [Y] becomes [1900 + Y] when
    [Y >= 70] and [2000 + Y] otherwise, a four-digit year is kept; and
    [toIsoDate "01/01/70" = "1970-01-01"],
    [toIsoDate "01/01/69" = "2069-01-01"]. *)
Theorem toIsoDate_canonical (d D mm Y : string) :
  DateToken d D mm Y ->
  toIsoDate d = isoOf (expandYear Y) mm (padStart2 D)
  /\ isIso (toIsoDate d) = true
  /\ (String.length Y = 2 ->
        expandYear Y = stringOfNat (pivot (natOfDigits Y))
        /\ natOfDigits Y < 100)
  /\ (String.length Y = 4 -> expandYear Y = Y)
  /\ toIsoDate "01/01/70" = "1970-01-01"
  /\ toIsoDate "01/01/69" = "2069-01-01".
Proof.
  intros T.
  assert (E : toIsoDate d = isoOf (expandYear Y) mm (padStart2 D)
              /\ oneOrTwoDigits D /\ yearDigits Y
              /\ exists x y, mm = String x (String y EmptyString)
                             /\ isDigit x = true /\ isDigit y = true).
  { destruct T as [D M Y s1 s2 HD HM HY H1 H2
                  | D Y mm a b c s1 s2 HD HY Ha Hb Hc Hl H1 H2].
    - split; [|split; [exact HD | split; [exact HY | now apply padStart2_digits]]].
      destruct HY as (HY & LY). apply toIsoDate_numeric; auto. lia.
    - split; [|split; [exact HD | split; [exact HY | now apply monthMap_digits in Hl]]].
      destruct HY as (HY & LY). apply toIsoDate_monthName; auto. lia. }
  destruct E as (E & HD & HY & x & y & -> & Hx & Hy).
  split; [exact E|]. split; [|split; [|split; [|split; reflexivity]]].
  - rewrite E.
    destruct (padStart2_digits HD) as (d1 & d2 & -> & Hd1 & Hd2).
    destruct (expandYear_digits HY) as (a & b & c & e & -> & Ha & Hb & Hc & He).
    now apply isIso_isoOf.
  - intros L. destruct HY as (HY & _).
    destruct Y as [|y1 [|y2 [|? ?]]]; simpl in L; try discriminate.
    simpl in HY. repeat rewrite andb_true_iff in HY.
    destruct (@expandYear_two y1 y2) as (P & Q & _); tauto.
  - intros L. unfold expandYear. now rewrite L.
Qed.

Lemma toIsoDate_canonical_witness :
  toIsoDate "5-Jan-70" = isoOf (expandYear "70") "01" (padStart2 "5")
  /\ isIso (toIsoDate "5-Jan-70") = true.
Proof.
  destruct (@toIsoDate_canonical "5-Jan-70" "5" "01" "70") as (E & I & _).
  - apply (MonthNameToken (D := "5") (Y := "70") (mm := "01")
             "J" "a" "n" "-" "-"); try reflexivity; split; auto.
  - split; assumption.
Defined.

(** The row pattern also accepts a three-digit year, which [toIsoDate] copies
    as it is: the result is then not of the canonical form. *)
Lemma three_digit_year_kept :
  test (Seq Bol (Seq DATE_TOKEN Eol)) "01/01/123" = true
  /\ toIsoDate "01/01/123" = "123-01-01"
  /\ isIso (toIsoDate "01/01/123") = false.
Proof. repeat split; reflexivity. Qed.

(** ** Month keys *)

(** Invert every hypothesis on a pattern whose head is known. *)
Ltac invM :=
  repeat match goal with
  | H : Matches (Seq _ _) _ _ _ _ |- _ => inversion H; subst; clear H
  | H : Matches (Chr _) _ _ _ _ |- _ => inversion H; subst; clear H
  | H : Matches (Group _ _) _ _ _ _ |- _ => inversion H; subst; clear H
  | H : Matches Eps _ _ _ _ |- _ => inversion H; subst; clear H
  | H : Matches Bol _ _ _ _ |- _ => inversion H; subst; clear H
  | H : Matches Eol _ _ _ _ |- _ => inversion H; subst; clear H
  end.

Lemma length_zero (s : string) : String.length s = 0 -> s = EmptyString.
Proof. now destruct s. Qed.

Lemma monthKey_some_iso (d k : string) :
  Route.monthKey d = Some k -> isIso d = true.
Proof.
  unfold Route.monthKey, exec. intros H.
  destruct (searchFrom Route.monthKeyRe 0 None d) as [m|] eqn:E; [|discriminate].
  clear H. apply searchFrom_sound in E.
  destruct E as (pre & w & post & Hs & Hi & _ & Hm & _).
  cbv [Route.monthKeyRe times digit lit] in Hm.
  inversion Hm as [| |r1 r2 p pv w1 w2 post' Hb Hrest| | | | | | | |]; subst.
  inversion Hb; subst. clear Hb Hm.
  assert (Hpre : pre = EmptyString).
  { apply length_zero. simpl in *. lia. }
  subst pre. simpl in *.
  invM. simpl.
  repeat match goal with
         | H : Ascii.eqb _ _ = true |- _ => apply Ascii.eqb_eq in H; subst
         end.
  cbn -[isDigit]. 
  repeat match goal with H : isDigit ?c = true |- _ => rewrite H; clear H end.
  reflexivity.
Qed.

Lemma monthKey_iso (d : string) :
  isIso d = true -> Route.monthKey d = Some (take 7 d).
Proof.
  unfold isIso. intros H.
  destruct d as [|y1 [|y2 [|y3 [|y4 [|h1 [|m1 [|m2 [|h2 [|d1 [|d2 [|? ?]]]]]]]]]]];
    try discriminate.
  repeat rewrite andb_true_iff in H.
  repeat match goal with H : _ /\ _ |- _ => destruct H end.
  repeat match goal with
         | H : Ascii.eqb _ _ = true |- _ => apply Ascii.eqb_eq in H; subst
         end.
  unfold Route.monthKey, exec, grp, group.
  cbn -[isDigit]. known. cbn -[isDigit]. known. reflexivity.
Qed.

Lemma monthKey_none_iff (d : string) :
  Route.monthKey d = None <-> isIso d = false.
Proof.
  split; intros H.
  - destruct (isIso d) eqn:E; [|reflexivity].
    apply monthKey_iso in E. congruence.
  - destruct (Route.monthKey d) eqn:E; [|reflexivity].
    apply monthKey_some_iso in E. congruence.
Qed.

Lemma monthsOf_skip (l1 l2 : list Route.Txn) (t : Route.Txn) :
  Route.monthKey (Route.date t) = None ->
  Route.monthsOf (l1 ++ t :: l2) = Route.monthsOf (l1 ++ l2).
Proof.
  intros H. unfold Route.monthsOf. rewrite !fold_left_app. simpl.
  unfold Route.monthStep at 2. now rewrite H.
Qed.

(** C10.  [toIsoDate] returns its argument unchanged whenever the argument
    matches neither the numeric pattern nor the month-name pattern with a
    month abbreviation of the month map.  Such a date can be a string that is
    not of the form [YYYY-MM-DD]; [monthKey] maps every such string to no
    month, and the month-over-month breakdown leaves the transaction out. *)
Theorem toIsoDate_passthrough_omitted :
  (forall d : string,
     exec slashRe d = None ->
     (forall m, exec monthNameRe d = Some m ->
                lookup (toLowerCase (grp 2 m)) monthMap = None) ->
     toIsoDate d = d)
  /\ (forall d : string, isIso d = false -> Route.monthKey d = None)
  /\ (forall (l1 l2 : list Route.Txn) (t : Route.Txn),
        Route.monthKey (Route.date t) = None ->
        Route.monthOverMonth (Route.buildInsights (l1 ++ t :: l2))
        = Route.monthOverMonth (Route.buildInsights (l1 ++ l2)))
  /\ (test (Seq Bol (Seq DATE_TOKEN Eol)) "01 Foo 2024" = true
      /\ toIsoDate "01 Foo 2024" = "01 Foo 2024"
      /\ isIso (Route.date DateSamples.fooTxn) = false
      /\ Route.monthKey (Route.date DateSamples.fooTxn) = None
      /\ Route.monthOverMonth (Route.buildInsights [DateSamples.fooTxn]) = []).
Proof.
  split; [|split; [|split]].
  - intros d Hs Hm. unfold toIsoDate. rewrite Hs.
    destruct (exec monthNameRe d) as [m|]; [|reflexivity].
    now rewrite (Hm m eq_refl).
  - intros d. apply monthKey_none_iff.
  - intros l1 l2 t H. cbn [Route.buildInsights Route.monthOverMonth].
    now apply monthsOf_skip.
  - repeat split; reflexivity.
Qed.

Lemma toIsoDate_passthrough_omitted_witness :
  toIsoDate "01 Foo 2024" = "01 Foo 2024"
  /\ Route.monthKey "01 Foo 2024" = None.
Proof.
  destruct toIsoDate_passthrough_omitted as (P & K & _).
  split.
  - apply P; [reflexivity|].
    intros m E. vm_compute in E. injection E as <-. reflexivity.
  - apply K. reflexivity.
Defined.

(** ** The table locator *)

Lemma generic_rows_headerless (lines : list string) :
  Forall (fun line => Generic.looksLikeHeader line = false) lines ->
  fold_left Generic.rowStep lines (Generic.mkRowState false None [])
  = Generic.mkRowState false None [].
Proof.
  induction 1 as [|line lines Hl _ IH]; simpl; [reflexivity|].
  unfold Generic.rowStep at 2. simpl. rewrite Hl. simpl. exact IH.
Qed.

Lemma route_rows_headerless (lines : list string) :
  Forall (fun line => Generic.looksLikeHeader line = false) lines ->
  fold_left Route.rowStep lines (Route.mkRowState false None [])
  = Route.mkRowState false None [].
Proof.
  induction 1 as [|line lines Hl _ IH]; simpl; [reflexivity|].
  unfold Route.rowStep at 2, Route.looksLikeHeader. simpl. rewrite Hl. simpl.
  exact IH.
Qed.

Lemma bareRow_headerless : TableSpec.headerless TableSpec.bareRow.
Proof.
  unfold TableSpec.headerless.
  replace (normalizedLines TableSpec.bareRow) with [TableSpec.bareRow]
    by (vm_compute; reflexivity).
  constructor; [vm_compute; reflexivity | constructor].
Qed.

(** X1.  On a text with no header line the generic strategy and
    [parseStatementRows] discard every line: they extract no row and no
    transaction.  The ICICI strategy looks for no header, so the run keeps
    either an empty list or the transactions of the ICICI strategy.  The
    insights over the empty list have count and totals zero and no
    income/expense ratio. *)
Theorem headerless_text_generic_empty (text : string) :
  TableSpec.headerless text ->
  Generic.parseRows text = []
  /\ Generic.parse text = []
  /\ Route.parseStatementRows text = []
  /\ (exists r,
        Registry.runParserPipeline text = Returned r
        /\ (Registry.txns r = []
            \/ (Registry.parserId r = "icici-v1"
                /\ Registry.txns r = Icici.parseIciciRows text)))
  /\ (Route.transactionCount (Route.buildInsights []) = 0
      /\ (Route.totalDebits (Route.buildInsights []) == 0)%Q
      /\ (Route.totalCredits (Route.buildInsights []) == 0)%Q
      /\ (Route.netFlow (Route.buildInsights []) == 0)%Q
      /\ Route.incomeExpenseRatio (Route.buildInsights []) = None).
Proof.
  intros H.
  assert (R : Generic.parseRows text = []).
  { unfold Generic.parseRows. now rewrite generic_rows_headerless. }
  assert (P : Generic.parse text = []).
  { unfold Generic.parse. now rewrite R. }
  split; [exact R|]. split; [exact P|]. split; [|split].
  - unfold Route.parseStatementRows. now rewrite route_rows_headerless.
  - unfold Registry.runParserPipeline, Registry.runParserPipelineWith,
      Registry.PARSERS, Registry.pipelineLoop, Registry.pipelineStep.
    cbn [Registry.bind Registry.canParse Registry.parse Registry.id
         Registry.iciciStatementParser Registry.genericStatementParser].
    rewrite P.
    destruct (Qleb (Icici.canParse text) 0); cbn [Registry.bind].
    + destruct (Qleb (Generic.canParse text) 0); cbn [Registry.bind].
      * eexists; split; [reflexivity|]. now left.
      * destruct (Qltb _ _); eexists; (split; [reflexivity|]); now left.
    + destruct (Qltb (Registry.score Registry.noResult) _); cbn [Registry.bind].
      * destruct (Qleb (Generic.canParse text) 0); cbn [Registry.bind].
        -- eexists; split; [reflexivity|]. right. split; reflexivity.
        -- destruct (Qltb _ _); eexists; (split; [reflexivity|]).
           ++ now left.
           ++ right. split; reflexivity.
      * destruct (Qleb (Generic.canParse text) 0); cbn [Registry.bind].
        -- eexists; split; [reflexivity|]. now left.
        -- destruct (Qltb _ _); eexists; (split; [reflexivity|]); now left.
  - repeat split; reflexivity.
Qed.

Lemma headerless_text_generic_empty_witness :
  Generic.parse TableSpec.bareRow = []
  /\ exists r, Registry.runParserPipeline TableSpec.bareRow = Returned r
               /\ (Registry.txns r = []
                   \/ (Registry.parserId r = "icici-v1"
                       /\ Registry.txns r = Icici.parseIciciRows TableSpec.bareRow)).
Proof.
  destruct (@headerless_text_generic_empty TableSpec.bareRow) as (_ & P & _ & R & _).
  - exact bareRow_headerless.
  - split; assumption.
Defined.

(** A text with no header line can still yield a transaction, extracted by
    the ICICI strategy. *)
Lemma headerless_text_icici_example :
  TableSpec.headerless TableSpec.bareRow
  /\ exists t,
       Route.parseTransactionsFromText TableSpec.bareRow = Returned [t]
       /\ Route.sourceParser t = Some "icici-v1"
       /\ Route.description t = "NETFLIX"
       /\ Route.transactionCount (Route.buildInsights [t]) = 1
       /\ (Route.totalDebits (Route.buildInsights [t]) == 199)%Q.
Proof.
  split; [exact bareRow_headerless|].
  eexists. split; [vm_compute; reflexivity|].
  repeat split; reflexivity.
Qed.

(** ** Stable sorting *)

Section SortBy.

Variable A : Type.
Variable before : A -> A -> bool.

(** [after_ x y]: [y] may stand after [x] in a sorted list. *)
Let notBefore (x y : A) : Prop := before y x = false.

Hypothesis before_asym : forall x y, before x y = true -> before y x = false.
Hypothesis before_negtrans :
  forall x y z, before y x = false -> before z y = false -> before z x = false.

Lemma insertBy_perm (x : A) (l : list A) :
  Permutation (Route.insertBy before x l) (x :: l).
Proof.
  induction l as [|y l IH]; simpl; [reflexivity|].
  destruct (before y x); [|reflexivity].
  rewrite IH. apply perm_swap.
Qed.

Lemma sortBy_perm (l : list A) : Permutation (Route.sortBy before l) l.
Proof.
  unfold Route.sortBy. induction l as [|x l IH]; simpl; [reflexivity|].
  rewrite insertBy_perm. now constructor.
Qed.

Lemma insertBy_sorted (x : A) (l : list A) :
  StronglySorted notBefore l ->
  StronglySorted notBefore (Route.insertBy before x l).
Proof.
  induction 1 as [|y l Hs IH Hy]; simpl.
  - repeat constructor.
  - destruct (before y x) eqn:E.
    + constructor; [exact IH|].
      apply Forall_forall. intros w Hw.
      apply (Permutation_in _ (insertBy_perm x l)) in Hw.
      destruct Hw as [<- | Hw].
      * unfold notBefore. now apply before_asym.
      * rewrite Forall_forall in Hy. now apply Hy.
    + constructor; [constructor; assumption|].
      constructor; [exact E|].
      apply Forall_forall. intros w Hw.
      rewrite Forall_forall in Hy. specialize (Hy w Hw).
      unfold notBefore in *. eapply before_negtrans; eauto.
Qed.

Lemma sortBy_sorted (l : list A) :
  StronglySorted notBefore (Route.sortBy before l).
Proof.
  unfold Route.sortBy. induction l as [|x l IH]; simpl.
  - constructor.
  - now apply insertBy_sorted.
Qed.

End SortBy.

Lemma StronglySorted_weaken {A} (R S : A -> A -> Prop) (l : list A) :
  (forall x y, R x y -> S x y) -> StronglySorted R l -> StronglySorted S l.
Proof.
  intros H. induction 1 as [|x l Hs IH Hx]; constructor; auto.
  eapply Forall_impl; [|exact Hx]. intros y. apply H.
Qed.

(** Sorting by a rational key, largest first. *)
Lemma sortBy_desc_perm {A} (key : A -> Q) (l : list A) :
  Permutation (Route.sortBy (fun a b => Qltb (key b) (key a)) l) l.
Proof. apply sortBy_perm. Qed.

Lemma sortBy_desc_sorted {A} (key : A -> Q) (l : list A) :
  StronglySorted (fun x y => (key y <= key x)%Q)
    (Route.sortBy (fun a b => Qltb (key b) (key a)) l).
Proof.
  eapply StronglySorted_weaken; [|apply sortBy_sorted].
  - intros x y H. simpl in H. apply Qltb_ge in H. exact H.
  - intros x y H. apply Qltb_lt in H. apply Qltb_ge. lra.
  - intros x y z H1 H2. apply Qltb_ge in H1, H2. apply Qltb_ge. lra.
Qed.

Lemma sorted_app_order {A} (R : A -> A -> Prop) (a b : list A) :
  StronglySorted R (a ++ b) ->
  forall y x, In y a -> In x b -> R y x.
Proof.
  induction a as [|h a IH]; simpl; intros H y x Hy Hx; [contradiction|].
  inversion H as [|? ? Hs Hh]; subst.
  destruct Hy as [<- | Hy].
  - rewrite Forall_forall in Hh. apply Hh, in_or_app. now right.
  - now apply IH.
Qed.

(** The first [k] elements of a sorted list: an element is among them, or
    there are [k] of them and each stands before it. *)
Lemma firstn_sorted_top {A} (R : A -> A -> Prop) (k : nat) (l : list A) (x : A) :
  StronglySorted R l -> In x l ->
  In x (firstn k l)
  \/ (List.length (firstn k l) = k /\ forall y, In y (firstn k l) -> R y x).
Proof.
  intros Hs Hx. rewrite <- (firstn_skipn k l) in Hx, Hs.
  apply in_app_or in Hx. destruct Hx as [Hx | Hx]; [now left|].
  right. split.
  - apply firstn_length_le.
    destruct (le_lt_dec k (List.length l)) as [L|L]; [exact L|].
    rewrite skipn_all2 in Hx by lia. contradiction.
  - intros y Hy. eapply sorted_app_order; eauto.
Qed.

Lemma firstn_sorted {A} (R : A -> A -> Prop) (k : nat) (l : list A) :
  StronglySorted R l -> StronglySorted R (firstn k l).
Proof.
  intros H. revert k. induction H as [|x l Hs IH Hx]; intros [|k]; simpl;
    try constructor; auto.
  rewrite Forall_forall in *. intros y Hy. apply Hx.
  rewrite <- (firstn_skipn k l). apply in_or_app. now left.
Qed.

Lemma firstn_incl {A} (k : nat) (l : list A) (x : A) :
  In x (firstn k l) -> In x l.
Proof.
  intros H. rewrite <- (firstn_skipn k l). apply in_or_app. now left.
Qed.

(** ** Unusual spends *)

Module Unusual.
Import Rdefinitions Raxioms RIneq R_sqrt Rbasic_fun Qreals Lra.
Local Open Scope R_scope.



End Unusual.



Lemma StronglySorted_map {A B} (f : A -> B) (R : B -> B -> Prop) (l : list A) :
  StronglySorted (fun a b => R (f a) (f b)) l -> StronglySorted R (map f l).
Proof.
  induction 1 as [|x l Hs IH Hx]; simpl; constructor; auto.
  apply Forall_forall. intros y Hy. apply in_map_iff in Hy.
  destruct Hy as (z & <- & Hz). rewrite Forall_forall in Hx. now apply Hx.
Qed.

Module Threshold.
Import Rdefinitions Raxioms RIneq R_sqrt Rbasic_fun Qreals Lra.
Local Open Scope R_scope.






(** For nine debits of 100 and one of 5000 the mean is 590, the variance
    2160900, the threshold [max(1062, 590 + 2 * 1470) = 3530]; the debit of
    5000 is flagged and no debit of 100 is. *)
Lemma nine_small_one_large :
  let ds := map Route.absAmount (Route.debitsOf InsightSamples.nineSmallOneLarge) in
  (Route.mean ds == 590)%Q
  /\ (Route.variance ds == 2160900)%Q
  /\ Route.unusualThreshold ds = 3530
  /\ Route.unusualSpends (Route.buildInsights InsightSamples.nineSmallOneLarge)
     = [Route.UnusualSpend.make "large" "2024-01-06" "LAPTOP" (Qabs (- (5000)))].
Proof.
  intros ds.
  assert (M : (Route.mean ds == 590)%Q) by (vm_compute; reflexivity).
  assert (V : (Route.variance ds == 2160900)%Q) by (vm_compute; reflexivity).
  split; [exact M|]. split; [exact V|]. split; [|vm_compute; reflexivity].
  unfold Route.unusualThreshold, Route.stdDev.
  rewrite Q2R_mult, (Qeq_eqR _ _ M), (Qeq_eqR _ _ V).
  replace (Q2R 590) with 590 by (unfold Q2R; simpl; lra).
  replace (Q2R (18 # 10)) with (18 / 10) by (unfold Q2R; simpl; lra).
  replace (Q2R 2160900) with (1470 * 1470) by (unfold Q2R; simpl; lra).
  rewrite sqrt_square by lra.
  rewrite Rmax_right; lra.
Qed.


End Threshold.

(** ** Maps in insertion order *)

Import InsightSpec.

Lemma assoc_upsert {V} (k k' : string) (f : option V -> V) (m : list (string * V)) :
  assoc k' (Route.upsert k f m)
  = if String.eqb k k' then Some (f (assoc k m)) else assoc k' m.
Proof.
  induction m as [|[a v] m IH]; simpl.
  - reflexivity.
  - destruct (String.eqb a k) eqn:E; simpl.
    + apply String.eqb_eq in E. subst a.
      destruct (String.eqb k k'); reflexivity.
    + rewrite IH. destruct (String.eqb k k') eqn:E'; [|reflexivity].
      apply String.eqb_eq in E'. subst k'. now rewrite E.
Qed.

Lemma keys_upsert {V} (k : string) (f : option V -> V) (m : list (string * V)) :
  map fst (Route.upsert k f m)
  = match assoc k m with
    | Some _ => map fst m
    | None => map fst m ++ [k]
    end.
Proof.
  induction m as [|[a v] m IH]; simpl; [reflexivity|].
  destruct (String.eqb a k) eqn:E; simpl; [reflexivity|].
  rewrite IH. now destruct (assoc k m).
Qed.

Lemma assoc_none_keys {V} (k : string) (m : list (string * V)) :
  assoc k m = None <-> ~ In k (map fst m).
Proof.
  induction m as [|[a v] m IH]; simpl; [tauto|].
  destruct (String.eqb a k) eqn:E.
  - apply String.eqb_eq in E. split; [discriminate | intros H; elim H; auto].
  - apply String.eqb_neq in E. rewrite IH. tauto.
Qed.

Lemma assoc_in {V} (k : string) (v : V) (m : list (string * V)) :
  NoDup (map fst m) -> (In (k, v) m <-> assoc k m = Some v).
Proof.
  induction m as [|[a w] m IH]; simpl; intros N.
  - split; [contradiction | discriminate].
  - inversion N as [|? ? Ha N']; subst.
    destruct (String.eqb a k) eqn:E.
    + apply String.eqb_eq in E. subst a. split.
      * intros [H | H]; [congruence|].
        elim Ha. change k with (fst (k, v)). now apply in_map.
      * intros H. left. congruence.
    + apply String.eqb_neq in E. rewrite <- (IH N'). split.
      * intros [H | H]; [congruence | exact H].
      * auto.
Qed.

Lemma NoDup_snoc {A} (l : list A) (x : A) :
  NoDup l -> ~ In x l -> NoDup (l ++ [x]).
Proof.
  intros N H. apply NoDup_app; [exact N | repeat constructor; auto | ].
  intros y Hy [<- | []]. contradiction.
Qed.

Lemma keys_upsert_nodup {V} (k : string) (f : option V -> V) (m : list (string * V)) :
  NoDup (map fst m) -> NoDup (map fst (Route.upsert k f m)).
Proof.
  intros N. rewrite keys_upsert. destruct (assoc k m) eqn:E; [exact N|].
  apply NoDup_snoc; [exact N|]. now apply assoc_none_keys.
Qed.

(** ** Merchant groups *)

Lemma merchantGroups_snoc (l : list Route.Txn) (t : Route.Txn) :
  Route.merchantGroups (l ++ [t])
  = Route.groupStep (Route.merchantGroups l) t.
Proof. unfold Route.merchantGroups. now rewrite fold_left_app. Qed.

Lemma merchantGroups_nodup (l : list Route.Txn) :
  NoDup (map fst (Route.merchantGroups l)).
Proof.
  induction l as [|t l IH] using rev_ind; [constructor|].
  rewrite merchantGroups_snoc. unfold Route.groupStep.
  destruct (_ || _); [exact IH | now apply keys_upsert_nodup].
Qed.

Lemma merchantGroups_assoc (l : list Route.Txn) (k : string) :
  assoc k (Route.merchantGroups l)
  = if (3 <=? String.length k)
       && negb (List.length (filter (fun t => String.eqb (keyOf t) k) l) =? 0)
    then Some (filter (fun t => String.eqb (keyOf t) k) l) else None.
Proof.
  induction l as [|t l IH] using rev_ind.
  - cbn [filter List.length Nat.eqb negb]. now rewrite andb_false_r.
  - rewrite merchantGroups_snoc. unfold Route.groupStep.
    fold (keyOf t). rewrite filter_app. cbn [filter].
    set (g := filter (fun t0 => String.eqb (keyOf t0) k) l) in *.
    destruct (String.eqb (keyOf t) k) eqn:E.
    + apply String.eqb_eq in E. rewrite E.
      destruct (3 <=? String.length k) eqn:L.
      * apply Nat.leb_le in L.
        replace ((String.length k =? 0) || (String.length k <? 3)) with false.
        2:{ symmetry. apply orb_false_iff. split;
              [apply Nat.eqb_neq | apply Nat.ltb_ge]; lia. }
        rewrite assoc_upsert, String.eqb_refl, IH.
        rewrite length_app. cbn [List.length].
        replace (List.length g + 1 =? 0)
          with false by (symmetry; apply Nat.eqb_neq; lia).
        cbn [andb negb].
        destruct g; reflexivity.
      * apply Nat.leb_gt in L.
        replace ((String.length k =? 0) || (String.length k <? 3)) with true.
        2:{ symmetry. apply orb_true_iff. right. apply Nat.ltb_lt. lia. }
        rewrite IH. reflexivity.
    + rewrite app_nil_r.
      destruct ((String.length (keyOf t) =? 0) || (String.length (keyOf t) <? 3));
        [exact IH|].
      rewrite assoc_upsert, E. exact IH.
Qed.

Lemma merchantGroups_in (txns : list Route.Txn) (k : string) (g : list Route.Txn) :
  In (k, g) (Route.merchantGroups (Route.debitsOf txns)) <->
  (3 <= String.length k /\ g = merchantDebits k txns /\ g <> []).
Proof.
  rewrite (@assoc_in _ k g _ (merchantGroups_nodup _)), merchantGroups_assoc.
  unfold merchantDebits. fold keyOf.
  set (G := filter _ (Route.debitsOf txns)).
  destruct (3 <=? String.length k) eqn:L; cbn [andb].
  - apply Nat.leb_le in L. destruct G as [|x G']; cbn [List.length Nat.eqb negb].
    + split; [discriminate | intros (_ & -> & H); now elim H].
    + split.
      * intros H. injection H as <-. repeat split; auto. discriminate.
      * intros (_ & -> & _). reflexivity.
  - apply Nat.leb_gt in L. split; [discriminate | intros (H & _); lia].
Qed.

Lemma dedup_in (l : list string) (x : string) : In x (Route.dedup l) <-> In x l.
Proof.
  induction l as [|y l IH]; simpl; [tauto|].
  destruct (existsb (String.eqb y) l) eqn:E.
  - rewrite IH. split; [auto|]. intros [<- | H]; [|exact H].
    apply existsb_exists in E. destruct E as (z & Hz & Ez).
    apply String.eqb_eq in Ez. now subst z.
  - simpl. rewrite IH. tauto.
Qed.

Lemma dedup_nodup (l : list string) : NoDup (Route.dedup l).
Proof.
  induction l as [|y l IH]; simpl; [constructor|].
  destruct (existsb (String.eqb y) l) eqn:E; [exact IH|].
  constructor; [|exact IH]. rewrite dedup_in. intros H.
  assert (T : existsb (String.eqb y) l = true).
  { apply existsb_exists. exists y. split; [exact H | apply String.eqb_refl]. }
  congruence.
Qed.

Lemma two_distinct (l : list string) :
  NoDup l -> (2 <= List.length l <-> exists a b, In a l /\ In b l /\ a <> b).
Proof.
  intros N. split.
  - destruct l as [|a [|b l]]; simpl; try lia. intros _.
    exists a, b. repeat split; auto.
    inversion N as [|? ? Ha _]; subst. intros ->. apply Ha. now left.
  - intros (a & b & Ha & Hb & Hab).
    destruct l as [|x [|y l]]; simpl in *; try lia; try tauto.
    destruct Ha as [<- | []], Hb as [<- | []]. now elim Hab.
Qed.

Lemma keepSome_in {A} (l : list (option A)) (x : A) :
  In x (Generic.keepSome l) <-> In (Some x) l.
Proof.
  unfold Generic.keepSome. rewrite in_flat_map. split.
  - intros ([y|] & Hy & Hx); simpl in Hx; [|contradiction].
    destruct Hx as [<- | []]. exact Hy.
  - intros H. exists (Some x). split; [exact H | now left].
Qed.

Lemma monthCountOf_span (g : list Route.Txn) :
  2 <= Route.monthCountOf g <-> spansTwoMonths g.
Proof.
  unfold Route.monthCountOf, spansTwoMonths.
  rewrite (two_distinct (dedup_nodup _)).
  split.
  - intros (a & b & Ha & Hb & Hab).
    rewrite dedup_in, keepSome_in, in_map_iff in Ha, Hb.
    destruct Ha as (t1 & E1 & H1), Hb as (t2 & E2 & H2).
    exists t1, t2, a, b. auto.
  - intros (t1 & t2 & m1 & m2 & H1 & H2 & E1 & E2 & Hm).
    exists m1, m2. rewrite !dedup_in, !keepSome_in, !in_map_iff.
    split; [exists t1; auto|]. split; [exists t2; auto | exact Hm].
Qed.

Lemma filter_keeps_distinct_keys {K T} (key : T -> K) (keep : T -> bool)
  (xs : list T) :
  NoDup (map key xs) -> NoDup (map key (filter keep xs)).
Proof.
  intros N. induction xs as [|a xs IHxs]; simpl in *; [constructor|].
  inversion N as [|? ? Ha N']; subst.
  destruct (keep a); simpl; [|auto].
  constructor; [|auto]. intros H. apply Ha.
  apply in_map_iff in H. destruct H as (y & E & Hy).
  apply filter_In in Hy. apply in_map_iff. exists y. tauto.
Qed.

Lemma NoDup_map_firstn {A B} (f : A -> B) (k : nat) (l : list A) :
  NoDup (map f l) -> NoDup (map f (firstn k l)).
Proof.
  intros N. rewrite <- (firstn_skipn k l), map_app in N.
  now apply NoDup_app_remove_r in N.
Qed.

(** ** Subscriptions *)

(** X3.  Subscription detection.  The result has at most ten entries with
    distinct merchants, sorted by total amount, largest first.  Every entry
    stands for the debits of one normalized merchant of at least three
    characters: its count is their number, at least two; they fall in at
    least two distinct months; its total is the sum of their magnitudes and
    its average the total divided by the count.  Every merchant with such
    debits is in the result unless ten entries of at least its total are. *)
Theorem subscriptions_group_recurring (txns : list Route.Txn) :
  let out := Route.subscriptions (Route.buildInsights txns) in
  let group := fun k => merchantDebits k txns in
  List.length out <= 10
  /\ StronglySorted
       (fun a b => (Route.Subscription.totalAmount b
                    <= Route.Subscription.totalAmount a)%Q) out
  /\ NoDup (map Route.Subscription.merchant out)
  /\ (forall e, In e out ->
        let g := group (Route.Subscription.merchant e) in
        3 <= String.length (Route.Subscription.merchant e)
        /\ Route.Subscription.count e = List.length g
        /\ 2 <= Route.Subscription.count e
        /\ spansTwoMonths g
        /\ Route.Subscription.totalAmount e = Route.totalAbs g
        /\ Route.Subscription.avgAmount e
           = (Route.totalAbs g / Registry.ofNat (List.length g))%Q)
  /\ (forall k,
        3 <= String.length k -> 2 <= List.length (group k) ->
        spansTwoMonths (group k) ->
        (exists e, In e out /\ Route.Subscription.merchant e = k)
        \/ (List.length out = 10
            /\ forall e, In e out ->
                 (Route.totalAbs (group k) <= Route.Subscription.totalAmount e)%Q)).
Proof.
  intros out group.
  set (M := Route.merchantGroups (Route.debitsOf txns)).
  set (S := Route.sortBy
              (fun a b => Qltb (Route.g_totalAmount b) (Route.g_totalAmount a))
              (filter Route.qualifies (map Route.statsOf M))).
  set (conv := fun g => Route.Subscription.make (Route.g_merchant g)
                          (Route.g_count g) (Route.g_avgAmount g)
                          (Route.g_totalAmount g)).
  assert (Hout : out = map conv (firstn 10 S)) by reflexivity.
  assert (HS : StronglySorted
                 (fun x y => (Route.g_totalAmount y <= Route.g_totalAmount x)%Q) S)
    by apply sortBy_desc_sorted.
  assert (HP : forall g, In g S <->
             exists k, 3 <= String.length k /\ group k <> []
                       /\ g = Route.statsOf (k, group k)
                       /\ Route.qualifies g = true).
  { intros g. unfold S. split.
    - intros H. apply (Permutation_in _ (sortBy_desc_perm _ _)) in H.
      apply filter_In in H. destruct H as (H & Q).
      apply in_map_iff in H. destruct H as ([k l] & <- & H).
      apply merchantGroups_in in H. destruct H as (L & -> & N).
      exists k. auto.
    - intros (k & L & N & -> & Q).
      apply (Permutation_in _ (Permutation_sym (sortBy_desc_perm _ _))).
      apply filter_In. split; [|exact Q].
      apply in_map. apply merchantGroups_in. auto. }
  assert (HN : NoDup (map Route.g_merchant S)).
  { unfold S.
    eapply Permutation_NoDup;
      [apply Permutation_map, Permutation_sym, sortBy_desc_perm|].
    apply filter_keeps_distinct_keys. rewrite map_map. simpl.
    apply merchantGroups_nodup. }
  split; [|split; [|split; [|split]]].
  - rewrite Hout, length_map. apply firstn_le_length.
  - rewrite Hout. apply StronglySorted_map. apply firstn_sorted. exact HS.
  - rewrite Hout, map_map.
    change (NoDup (map Route.g_merchant (firstn 10 S))).
    now apply NoDup_map_firstn.
  - intros e He. rewrite Hout in He. apply in_map_iff in He.
    destruct He as (g & <- & Hg). apply firstn_incl, HP in Hg.
    destruct Hg as (k & L & N & -> & Q).
    unfold Route.qualifies in Q.
    cbn [conv Route.statsOf Route.g_count Route.g_monthCount Route.g_merchant
         Route.g_avgAmount Route.g_totalAmount fst snd
         Route.Subscription.merchant Route.Subscription.count
         Route.Subscription.avgAmount Route.Subscription.totalAmount] in *.
    apply andb_true_iff in Q. destruct Q as (Q1 & Q2).
    apply Nat.leb_le in Q1, Q2.
    repeat split; auto. now apply monthCountOf_span.
  - intros k L C Sp.
    assert (Hk : In (Route.statsOf (k, group k)) S).
    { apply HP. exists k. repeat split; auto.
      - intros E. rewrite E in C. simpl in C. lia.
      - unfold Route.qualifies.
        cbn [Route.statsOf Route.g_count Route.g_monthCount fst snd].
        apply andb_true_iff.
        split; apply Nat.leb_le; [exact C | now apply monthCountOf_span]. }
    destruct (firstn_sorted_top 10 _ HS Hk) as [H | (Len & H)].
    + left. exists (conv (Route.statsOf (k, group k))). split; [|reflexivity].
      rewrite Hout. now apply in_map.
    + right. rewrite Hout, length_map. split; [exact Len|].
      intros e He. apply in_map_iff in He. destruct He as (u & <- & Hu).
      simpl. apply (H u Hu).
Qed.

Lemma subscriptions_group_recurring_witness :
  List.length (Route.subscriptions (Route.buildInsights InsightSamples.threeNetflix))
  <= 10.
Proof.
  destruct (subscriptions_group_recurring InsightSamples.threeNetflix) as (H & _).
  exact H.
Defined.

(** Three debits of 199 to "NETFLIX" in three months give one entry of
    count 3, average 199 and total 597. *)
Lemma three_netflix_subscription :
  exists e,
    Route.subscriptions (Route.buildInsights InsightSamples.threeNetflix) = [e]
    /\ Route.Subscription.merchant e = "NETFLIX"
    /\ Route.Subscription.count e = 3
    /\ (Route.Subscription.avgAmount e == 199)%Q
    /\ (Route.Subscription.totalAmount e == 597)%Q.
Proof.
  eexists. split; [vm_compute; reflexivity|]. repeat split.
Qed.

(** ** Category breakdown *)

Import BreakdownSpec.

Lemma categoryMap_nodup (l : list Route.Txn) :
  NoDup (map fst
    (fold_left (fun m t =>
       Route.upsert (Route.category t)
         (fun o =>
            let entry := match o with Some e => e | None => (0, 0%Q) end in
            (fst entry + 1, (snd entry + Route.absAmount t)%Q)) m) l [])).
Proof.
  induction l as [|t l IH] using rev_ind; [constructor|].
  rewrite fold_left_app. simpl. now apply keys_upsert_nodup.
Qed.

Lemma categoryMap_assoc (l : list Route.Txn) (c : string) :
  assoc c
    (fold_left (fun m t =>
       Route.upsert (Route.category t)
         (fun o =>
            let entry := match o with Some e => e | None => (0, 0%Q) end in
            (fst entry + 1, (snd entry + Route.absAmount t)%Q)) m) l [])
  = if List.length (inCategory c l) =? 0 then None
    else Some (List.length (inCategory c l), Route.totalAbs (inCategory c l)).
Proof.
  induction l as [|t l IH] using rev_ind; [reflexivity|].
  rewrite fold_left_app. cbn [fold_left].
  unfold inCategory in *. rewrite filter_app. cbn [filter].
  set (g := filter (fun t0 => String.eqb (Route.category t0) c) l) in *.
  rewrite assoc_upsert.
  destruct (String.eqb (Route.category t) c) eqn:E.
  - apply String.eqb_eq in E. rewrite E, IH.
    rewrite length_app. cbn [List.length].
    replace (List.length g + 1 =? 0) with false
      by (symmetry; apply Nat.eqb_neq; lia).
    rewrite totalAbs_snoc.
    destruct g; reflexivity.
  - rewrite app_nil_r. exact IH.
Qed.

(** X4.  Category breakdown.  The entries have pairwise distinct categories
    and are sorted by total, largest first; the entry of a category counts
    the transactions of that category (at least one) and sums their
    magnitudes; every transaction's category has an entry. *)
Theorem category_breakdown_groups (txns : list Route.Txn) :
  let out := Route.categoryBreakdown (Route.buildInsights txns) in
  NoDup (map Route.CategoryEntry.category out)
  /\ StronglySorted
       (fun a b => (Route.CategoryEntry.total b <= Route.CategoryEntry.total a)%Q)
       out
  /\ (forall e, In e out ->
        let g := inCategory (Route.CategoryEntry.category e) txns in
        Route.CategoryEntry.count e = List.length g
        /\ 1 <= Route.CategoryEntry.count e
        /\ Route.CategoryEntry.total e = Route.totalAbs g)
  /\ (forall t, In t txns ->
        exists e, In e out
                  /\ Route.CategoryEntry.category e = Route.category t).
Proof.
  intros out.
  set (M := fold_left (fun m t =>
       Route.upsert (Route.category t)
         (fun o =>
            let entry := match o with Some e => e | None => (0, 0%Q) end in
            (fst entry + 1, (snd entry + Route.absAmount t)%Q)) m) txns []).
  set (mk := fun kv : string * (nat * Q) =>
               Route.CategoryEntry.make (fst kv) (fst (snd kv)) (snd (snd kv))).
  assert (Hout : out = Route.sortBy
            (fun a b => Qltb (Route.CategoryEntry.total b) (Route.CategoryEntry.total a))
            (map mk M)) by reflexivity.
  assert (HP : forall e, In e out <-> exists kv, In kv M /\ e = mk kv).
  { intros e. rewrite Hout. split.
    - intros H. apply (Permutation_in _ (sortBy_desc_perm _ _)) in H.
      apply in_map_iff in H. destruct H as (kv & <- & H). eauto.
    - intros (kv & H & ->).
      apply (Permutation_in _ (Permutation_sym (sortBy_desc_perm _ _))).
      now apply in_map. }
  assert (HM : forall c n q, In (c, (n, q)) M <->
             (inCategory c txns <> []
              /\ n = List.length (inCategory c txns)
              /\ q = Route.totalAbs (inCategory c txns))).
  { intros c n q. unfold M.
    rewrite (@assoc_in _ c (n, q) _ (categoryMap_nodup txns)), categoryMap_assoc.
    destruct (inCategory c txns) as [|x g]; cbn [List.length Nat.eqb].
    - split; [discriminate | intros (H & _); now elim H].
    - split.
      + intros H. injection H as <- <-. repeat split. discriminate.
      + intros (_ & -> & ->). reflexivity. }
  split; [|split; [|split]].
  - rewrite Hout.
    eapply Permutation_NoDup;
      [apply Permutation_map, Permutation_sym, sortBy_desc_perm|].
    rewrite map_map. apply categoryMap_nodup.
  - rewrite Hout. apply sortBy_desc_sorted.
  - intros e He. apply HP in He. destruct He as ([c [n q]] & H & ->).
    apply HM in H. destruct H as (N & -> & ->).
    cbn [mk Route.CategoryEntry.category Route.CategoryEntry.count
         Route.CategoryEntry.total fst snd].
    repeat split. destruct (inCategory c txns); [now elim N | simpl; lia].
  - intros t Ht.
    set (g := inCategory (Route.category t) txns).
    exists (mk (Route.category t, (List.length g, Route.totalAbs g))).
    split; [|reflexivity].
    apply HP. eexists. split; [|reflexivity].
    apply HM. repeat split.
    intros E. assert (In t g).
    { unfold g, inCategory. apply filter_In. split; [exact Ht|].
      apply String.eqb_refl. }
    fold g in E. rewrite E in H. contradiction.
Qed.

Lemma category_breakdown_groups_witness :
  NoDup (map Route.CategoryEntry.category
           (Route.categoryBreakdown
              (Route.buildInsights InsightSamples.threeNetflix))).
Proof.
  destruct (category_breakdown_groups InsightSamples.threeNetflix) as (H & _).
  exact H.
Defined.

(** ** Month-over-month breakdown *)

Lemma ascii_compare_spec (a b : ascii) :
  CompareSpec (a = b) (N_of_ascii a < N_of_ascii b)%N
    (N_of_ascii b < N_of_ascii a)%N (Ascii.compare a b).
Proof.
  unfold Ascii.compare.
  destruct (N.compare_spec (N_of_ascii a) (N_of_ascii b)) as [E|L|G];
    constructor; auto.
  rewrite <- (ascii_N_embedding a), <- (ascii_N_embedding b). now rewrite E.
Qed.

(** [String.compare] is a total order: "not greater" is transitive. *)
Lemma string_compare_le_trans (x y z : string) :
  String.compare x y <> Gt -> String.compare y z <> Gt ->
  String.compare x z <> Gt.
Proof.
  revert y z. induction x as [|a x IH]; intros [|b y] [|c z]; simpl;
    try congruence.
  destruct (ascii_compare_spec a b) as [E1|L1|G1],
           (ascii_compare_spec b c) as [E2|L2|G2],
           (ascii_compare_spec a c) as [E3|L3|G3];
    subst; try congruence; try (intros; discriminate); try (exfalso; lia).
  apply IH.
Qed.

Lemma ltb_false_iff (x y : string) :
  String.ltb x y = false <-> String.compare y x <> Gt.
Proof.
  unfold String.ltb. rewrite (String.compare_antisym y x).
  destruct (String.compare x y); simpl; split; congruence.
Qed.

Lemma sortBy_ltb_sorted {V} (m : list (string * V)) :
  StronglySorted (fun a b => String.ltb (fst b) (fst a) = false)
    (Route.sortBy (fun a b => String.ltb (fst a) (fst b)) m).
Proof.
  apply (@sortBy_sorted _ (fun a b => String.ltb (fst a) (fst b))).
  - intros a b H. apply ltb_false_iff.
    unfold String.ltb in H. destruct (String.compare (fst a) (fst b)); congruence.
  - intros a b c H1 H2. apply ltb_false_iff in H1, H2. apply ltb_false_iff.
    eapply string_compare_le_trans; eauto.
Qed.

Lemma ltb_of_distinct (x y : string) :
  x <> y -> String.ltb y x = false -> String.ltb x y = true.
Proof.
  intros N H. apply ltb_false_iff in H. unfold String.ltb.
  destruct (String.compare x y) eqn:E; try congruence.
  apply String.compare_eq_iff in E. contradiction.
Qed.

Lemma sorted_distinct_strict {V} (l : list (string * V)) :
  NoDup (map fst l) ->
  StronglySorted (fun a b => String.ltb (fst b) (fst a) = false) l ->
  StronglySorted (fun a b => String.ltb (fst a) (fst b) = true) l.
Proof.
  induction l as [|x l IH]; intros N S; [constructor|].
  inversion N as [|? ? Hx N']; inversion S as [|? ? S' Hs]; subst.
  constructor; [now apply IH|].
  rewrite Forall_forall in *. intros y Hy.
  apply ltb_of_distinct; [|now apply Hs].
  intros E. apply Hx. rewrite E. now apply in_map.
Qed.

Lemma monthMap_nodup (l : list Route.Txn) :
  NoDup (map fst (fold_left Route.monthStep l [])).
Proof.
  induction l as [|t l IH] using rev_ind; [constructor|].
  rewrite fold_left_app. simpl. unfold Route.monthStep at 1.
  destruct (Route.monthKey (Route.date t)); [|exact IH].
  now apply keys_upsert_nodup.
Qed.

Lemma monthMap_assoc (l : list Route.Txn) (k : string) :
  assoc k (fold_left Route.monthStep l [])
  = if List.length (inMonth k l) =? 0 then None
    else Some (Route.totalAbs (filter countsAsIncome (inMonth k l)),
               Route.totalAbs (filter (fun t => negb (countsAsIncome t))
                                 (inMonth k l))).
Proof.
  induction l as [|t l IH] using rev_ind; [reflexivity|].
  rewrite fold_left_app. cbn [fold_left].
  unfold inMonth in *. rewrite filter_app. cbn [filter].
  set (g := filter _ l) in *.
  unfold Route.monthStep at 1.
  destruct (Route.monthKey (Route.date t)) as [mk|] eqn:K.
  - rewrite assoc_upsert.
    destruct (String.eqb mk k) eqn:E.
    + apply String.eqb_eq in E. subst mk. rewrite IH.
      rewrite length_app. cbn [List.length].
      replace (List.length g + 1 =? 0) with false
        by (symmetry; apply Nat.eqb_neq; lia).
      rewrite !filter_app. cbn [filter].
      destruct (Route.drCr t) as [[|]|] eqn:D.
      * assert (C : countsAsIncome t = true)
          by (unfold countsAsIncome; now rewrite D).
        rewrite C. cbn [negb]. rewrite app_nil_r, totalAbs_snoc.
        destruct g; reflexivity.
      * assert (C : countsAsIncome t = false)
          by (unfold countsAsIncome; now rewrite D).
        rewrite C. cbn [negb]. rewrite app_nil_r, totalAbs_snoc.
        destruct g; reflexivity.
      * assert (C : countsAsIncome t = Qleb 0 (Route.amount t))
          by (unfold countsAsIncome; now rewrite D).
        rewrite C.
        destruct (Qleb 0 (Route.amount t)); cbn [negb];
          rewrite app_nil_r, totalAbs_snoc; destruct g; reflexivity.
    + rewrite app_nil_r. exact IH.
  - rewrite app_nil_r. exact IH.
Qed.

(** X5.  Month-over-month breakdown.  The entries are in strictly ascending
    order of their month key; the entry of a month sums, over the
    transactions whose date gives that key (at least one), the magnitudes of
    those that count as credit into [income] and of the others into
    [expense], and [net] is [income - expense]; every transaction with a
    month key has an entry. *)
Theorem month_over_month_groups (txns : list Route.Txn) :
  let out := Route.monthOverMonth (Route.buildInsights txns) in
  StronglySorted
    (fun a b => String.ltb (Route.MonthEntry.month a) (Route.MonthEntry.month b)
                = true) out
  /\ (forall e, In e out ->
        let g := inMonth (Route.MonthEntry.month e) txns in
        g <> []
        /\ Route.MonthEntry.income e = Route.totalAbs (filter countsAsIncome g)
        /\ Route.MonthEntry.expense e
           = Route.totalAbs (filter (fun t => negb (countsAsIncome t)) g)
        /\ Route.MonthEntry.net e
           = (Route.MonthEntry.income e - Route.MonthEntry.expense e)%Q)
  /\ (forall t k, In t txns -> Route.monthKey (Route.date t) = Some k ->
        exists e, In e out /\ Route.MonthEntry.month e = k).
Proof.
  intros out.
  set (M := fold_left Route.monthStep txns []).
  set (S := Route.sortBy (fun a b : string * (Q * Q) => String.ltb (fst a) (fst b)) M).
  set (mk := fun kv : string * (Q * Q) =>
         Route.MonthEntry.make (fst kv) (fst (snd kv)) (snd (snd kv))
           (fst (snd kv) - snd (snd kv))%Q).
  assert (Hout : out = map mk S) by reflexivity.
  assert (HPerm : Permutation S M) by apply sortBy_perm.
  assert (HM : forall k i x, In (k, (i, x)) M <->
             (inMonth k txns <> []
              /\ i = Route.totalAbs (filter countsAsIncome (inMonth k txns))
              /\ x = Route.totalAbs (filter (fun t => negb (countsAsIncome t))
                                       (inMonth k txns)))).
  { intros k i x. unfold M.
    rewrite (@assoc_in _ k (i, x) _ (monthMap_nodup txns)), monthMap_assoc.
    destruct (inMonth k txns) as [|y g]; cbn [List.length Nat.eqb].
    - split; [discriminate | intros (H & _); now elim H].
    - split.
      + intros H. injection H as <- <-. repeat split. discriminate.
      + intros (_ & -> & ->). reflexivity. }
  split; [|split].
  - rewrite Hout. apply StronglySorted_map.
    change (StronglySorted (fun a b => String.ltb (fst a) (fst b) = true) S).
    apply sorted_distinct_strict; [|apply sortBy_ltb_sorted].
    eapply Permutation_NoDup;
      [apply Permutation_map, Permutation_sym, HPerm | apply monthMap_nodup].
  - intros e He. rewrite Hout in He. apply in_map_iff in He.
    destruct He as ([k [i x]] & <- & H).
    apply (Permutation_in _ HPerm), HM in H. destruct H as (N & -> & ->).
    cbn [mk Route.MonthEntry.month Route.MonthEntry.income
         Route.MonthEntry.expense Route.MonthEntry.net fst snd].
    repeat split. exact N.
  - intros t k Ht Hk.
    set (g := inMonth k txns).
    exists (mk (k, (Route.totalAbs (filter countsAsIncome g),
                    Route.totalAbs (filter (fun t => negb (countsAsIncome t)) g)))).
    split; [|reflexivity].
    rewrite Hout. apply in_map.
    apply (Permutation_in _ (Permutation_sym HPerm)), HM.
    repeat split. intros E.
    assert (In t g).
    { unfold g, inMonth. apply filter_In. split; [exact Ht|].
      rewrite Hk. apply String.eqb_refl. }
    fold g in E. rewrite E in H. contradiction.
Qed.

Lemma month_over_month_groups_witness :
  exists e,
    In e (Route.monthOverMonth (Route.buildInsights InsightSamples.threeNetflix))
    /\ Route.MonthEntry.month e = "2024-02".
Proof.
  destruct (month_over_month_groups InsightSamples.threeNetflix) as (_ & _ & H).
  apply (H (InsightSamples.debit "n2" "2024-02-05" "NETFLIX" 199)).
  - simpl. tauto.
  - reflexivity.
Defined.
